(** * Solid Waste Assessment Tool: the numerical core of [script.py]

    A shallow embedding of [computeArray], [zonalStats] (with its local
    [getNamesStats]) and [processStats], and the properties of the
    specification that they decide.

    Numbers are IEEE-754 binary64 values, as numpy's [float64] arrays and
    Python's [float] have them: Rocq's primitive [float], specified by
    [SpecFloat] through [Prim2SF].  Python's [None] is a value of its own
    ([PyNone]); exceptions and the text written by [print] are explicit in
    the monad [M]. *)

From Stdlib Require Import ZArith List String Ascii Bool Lia DecimalString.
From Stdlib Require Import Permutation Sorted.
From Stdlib Require Import Floats.
Import ListNotations.

Local Open Scope float_scope.

(** * Part I: the program *)

(** ** Python values, exceptions and output *)

(** What [zonal_stats] yields for one statistic of one zone, and what a
    numeric cell of a table holds: a float, or [None]. *)
Inductive pyval :=
| PyNone
| PyFloat (x : float).

Inductive exn :=
| KeyError
| TypeError
| ValueError
| OverflowError
| RasterioError.

Inductive outcome (A : Type) :=
| Return (a : A)
| Raise (e : exn).
Arguments Return {A} a.
Arguments Raise {A} e.

Definition obind {A B} (c : outcome A) (k : A -> outcome B) : outcome B :=
  match c with
  | Return a => k a
  | Raise e => Raise e
  end.

Declare Scope py_scope.
Delimit Scope py_scope with py.
Notation "x <- c ;; k" := (obind c (fun x => k))
  (at level 61, c at next level, right associativity) : py_scope.
Notation "' p <- c ;; k" := (obind c (fun x => let p := x in k))
  (at level 61, p pattern, c at next level, right associativity) : py_scope.
Local Open Scope py_scope.

Fixpoint mapM {A B} (f : A -> outcome B) (l : list A) : outcome (list B) :=
  match l with
  | [] => Return []
  | a :: l' => b <- f a ;; bs <- mapM f l' ;; Return (b :: bs)
  end.

(** ** [computeArray] *)

Definition ndarray := list (list float).

(** The raster source, as [rasterio] gives access to it: its no-data value,
    the window of a bounding box, the samples of a band inside a window and
    the affine transform of that window.  How these behave is rasterio's
    business; each call may raise.  ([dataset.crs] is read by the source and
    not used.)  The dataset is the one that [rio.open(fp_raster)] has
    opened, so [computeArray] below starts inside the [with] block, and the
    band holds floating-point samples, here binary64 (numpy does not store
    NaN in a band of integers). *)
Record DatasetReader (Window Affine : Type) := {
  ds_nodata : pyval;
  ds_window : float -> float -> float -> float -> outcome Window;
  ds_read : Z -> Window -> outcome ndarray;
  ds_window_transform : Window -> outcome Affine
}.
Arguments ds_nodata {Window Affine} d.
Arguments ds_window {Window Affine} d.
Arguments ds_read {Window Affine} d.
Arguments ds_window_transform {Window Affine} d.

(** [a[a < 0] = np.nan] *)
Definition set_negative_nan (a : ndarray) : ndarray :=
  map (map (fun x => if x <? 0 then nan else x)) a.

(** [a * k] and [a / k] for an array and a scalar. *)
Definition array_mul (a : ndarray) (k : float) : ndarray :=
  map (map (fun x => x * k)) a.
Definition array_div (a : ndarray) (k : float) : ndarray :=
  map (map (fun x => x / k)) a.

Definition bbox := (float * float * float * float)%type.

Definition computeArray {Window Affine} (dataset : DatasetReader Window Affine)
           (bbox : bbox) (sw_ppd : float) : outcome (ndarray * Affine * pyval) :=
  let '(minx, miny, maxx, maxy) := bbox in
  let nodata := ds_nodata dataset in
  window <- ds_window dataset minx miny maxx maxy ;;
  pop_array <- ds_read dataset 1 window ;;
  affine <- ds_window_transform dataset window ;;
  let pop_array := set_negative_nan pop_array in
  let sw_ppd_array := array_mul pop_array sw_ppd in
  let sw_ppw_array := array_mul sw_ppd_array 7 in
  let array := array_div sw_ppw_array 1000 in
  Return (array, affine, nodata).

(** The cell at row [i], column [j]. *)
Definition cell (a : ndarray) (i j : nat) : option float :=
  match nth_error a i with
  | Some row => nth_error row j
  | None => None
  end.

(** ** Python builtins used by [processStats] *)

(** Running a block: the lines printed so far are threaded through, and an
    exception ends the block with what had been printed before it. *)
Definition M (A : Type) := list string -> list string * outcome A.

Definition ret {A} (a : A) : M A := fun out => (out, Return a).

Definition bind {A B} (c : M A) (k : A -> M B) : M B :=
  fun out =>
    match c out with
    | (out', Return a) => k a out'
    | (out', Raise e) => (out', Raise e)
    end.

Definition lift {A} (o : outcome A) : M A := fun out => (out, o).

(** [print(s)]: one more entry of standard output (its final newline left out). *)
Definition print (s : string) : M unit := fun out => (out ++ [s], Return tt).

Declare Scope io_scope.
Delimit Scope io_scope with io.
Notation "x <- c ;; k" := (bind c (fun x => k))
  (at level 61, c at next level, right associativity) : io_scope.
Notation "c ;; k" := (bind c (fun _ => k))
  (at level 61, right associativity) : io_scope.

Fixpoint for_each {A} (f : A -> M unit) (l : list A) : M unit :=
  match l with
  | [] => ret tt
  | a :: l' => (f a ;; for_each f l')%io
  end.

(** [i - j] for a zonal statistic [i] and a reported total [j]: [None - j]
    is a [TypeError]. *)
Definition py_sub (i : pyval) (j : float) : outcome pyval :=
  match i with
  | PyFloat x => Return (PyFloat (x - j))
  | PyNone => Raise TypeError
  end.

(** [a < b]: ['<' not supported] when either side is [None]. *)
Definition py_lt (a b : pyval) : outcome bool :=
  match a, b with
  | PyFloat x, PyFloat y => Return (x <? y)
  | _, _ => Raise TypeError
  end.

(** [int(v)]: truncation towards zero; [None], NaN and the infinities raise. *)
Definition py_int (v : pyval) : outcome Z :=
  match v with
  | PyNone => Raise TypeError
  | PyFloat x =>
      match Prim2SF x with
      | S754_zero _ => Return 0%Z
      | S754_infinity _ => Raise OverflowError
      | S754_nan => Raise ValueError
      | S754_finite s m e =>
          let a := Z.shiftl (Zpos m) e in
          Return (if s then - a else a)%Z
      end
  end.

(** A [dict], in insertion order: assigning to a key that is present
    replaces its value where it stands, a new key goes last. *)
Definition dict (V : Type) := list (string * V).

Fixpoint setitem {V} (d : dict V) (k : string) (v : V) : dict V :=
  match d with
  | [] => [(k, v)]
  | (k', v') :: d' =>
      if String.eqb k' k then (k', v) :: d' else (k', v') :: setitem d' k v
  end.

(** [dict(pairs)], [d.items()] and [d.get(k)]. *)
Definition py_dict {V} (pairs : list (string * V)) : dict V :=
  fold_left (fun d kv => setitem d (fst kv) (snd kv)) pairs [].

Definition items {V} (d : dict V) : list (string * V) := d.

Fixpoint get {V} (d : dict V) (k : string) : option V :=
  match d with
  | [] => None
  | (k', v) :: d' => if String.eqb k' k then Some v else get d' k
  end.

(** [sorted(l, key=lambda x: x[1], reverse=True)].  CPython reverses the
    list, sorts it forwards with a stable sort that only asks [<] of the
    keys, and reverses the result.  The forward sort is written here as
    straight insertion after the equal keys (CPython's is a merge sort with
    binary insertion of short runs): both give the same list whenever [<]
    orders the keys, and both raise as soon as two or more items are sorted
    and one key is [None]. *)
Fixpoint insort (x : string * pyval) (run : list (string * pyval))
  : outcome (list (string * pyval)) :=
  match run with
  | [] => Return [x]
  | y :: run' =>
      lt <- py_lt (snd x) (snd y) ;;
      if lt then Return (x :: run)
      else r <- insort x run' ;; Return (y :: r)
  end.

Fixpoint sort_forward (todo run : list (string * pyval))
  : outcome (list (string * pyval)) :=
  match todo with
  | [] => Return run
  | x :: todo' => run' <- insort x run ;; sort_forward todo' run'
  end.

Definition sorted_by_value_reverse (l : list (string * pyval))
  : outcome (list (string * pyval)) :=
  r <- sort_forward (rev l) [] ;; Return (rev r).

(** [f"{n:,}"]: the decimal digits of [n] in groups of three from the
    right, with a minus sign when [n] is negative. *)
Fixpoint group3 (digits : list ascii) : list ascii :=
  match digits with
  | a :: b :: c :: rest =>
      match rest with
      | [] => digits
      | _ :: _ => a :: b :: c :: ","%char :: group3 rest
      end
  | _ => digits
  end.

Definition format_thousands (n : Z) : string :=
  let digits := list_ascii_of_string (NilZero.string_of_uint (N.to_uint (Z.to_N (Z.abs n)))) in
  let grouped := string_of_list_ascii (rev (group3 (rev digits))) in
  if (n <? 0)%Z then String "-"%char grouped else grouped.

(** ** [processStats] *)

(** The numeric columns of a table, by name. *)
Definition GeoDataFrame := list (string * list float).

(** [df[field].values.tolist()] *)
Fixpoint column (df : GeoDataFrame) (field : string) : outcome (list float) :=
  match df with
  | [] => Raise KeyError
  | (name, values) :: df' =>
      if String.eqb name field then Return values else column df' field
  end.

Definition nl : string := String "010"%char EmptyString.

(** [provider_uncoll], as the loop over [zip(provider_stats, provider_coll)]
    fills it. *)
Definition uncollected (provider_stats : list pyval) (provider_coll : list float)
  : outcome (list pyval) :=
  mapM (fun ij => py_sub (fst ij) (snd ij)) (combine provider_stats provider_coll).

(** [print(i[0], ':', f"{int(i[1]):,}", 'tonnes')] *)
Definition print_item (i : string * pyval) : M unit :=
  (n <- lift (py_int (snd i)) ;;
   print (fst i ++ " : " ++ format_thousands n ++ " tonnes"))%io.

Definition processStats (service_areas : GeoDataFrame)
           (mun_names : list string) (mun_stats : list pyval)
           (provider_names : list string) (provider_stats : list pyval)
           (provider_coll_field : string)
  : M (list (string * pyval) * list (string * pyval)) :=
  (provider_coll <- lift (column service_areas provider_coll_field) ;;
   provider_uncoll <- lift (uncollected provider_stats provider_coll) ;;
   let mun_dict := py_dict (combine mun_names mun_stats) in
   let provider_dict := py_dict (combine provider_names provider_uncoll) in
   mun_dict_sorted <- lift (sorted_by_value_reverse (items mun_dict)) ;;
   provider_dict_sorted <- lift (sorted_by_value_reverse (items provider_dict)) ;;
   print ("Municipalities by solid waste generated per week (descending):" ++ nl) ;;
   for_each print_item mun_dict_sorted ;;
   print (nl ++ "Service providers by total uncollected solid waste per week (descending)" ++ nl) ;;
   for_each print_item provider_dict_sorted ;;
   ret (mun_dict_sorted, provider_dict_sorted))%io.

(** ** [zonalStats] *)

(** A property of a feature: a text attribute or a statistic. *)
Inductive property :=
| Text (s : string)
| Stat (v : pyval).

(** A feature as [zonal_stats(..., geojson_out=True)] yields it. *)
Record feature_dict := { properties : dict property }.

(** [d[k]] *)
Definition getitem {V} (d : dict V) (k : string) : outcome V :=
  match get d k with
  | Some v => Return v
  | None => Raise KeyError
  end.

Section ZonalStats.
Context {Vector Affine : Type}.

(** [rasterstats.zonal_stats], with [geojson_out=True]: one feature per
    zone of [vector], in the order of [vector]. *)
Variable zonal_stats :
  Vector -> ndarray -> Affine -> pyval -> string -> outcome (list feature_dict).

(** The loop of [getNamesStats] over [temp]; the two lists it appends to
    are passed along. *)
Fixpoint append_names_stats (temp : list feature_dict)
         (name_field stat_select : string)
         (feature_list stat_list : list property)
  : outcome (list property * list property) :=
  match temp with
  | [] => Return (feature_list, stat_list)
  | feature_dict :: temp' =>
      feature_name <- getitem (properties feature_dict) name_field ;;
      feature_stat <- getitem (properties feature_dict) stat_select ;;
      append_names_stats temp' name_field stat_select
                         (feature_list ++ [feature_name])
                         (stat_list ++ [feature_stat])
  end.

(** [getNamesStats], a closure over [affine] and [nodata] of [zonalStats]. *)
Definition getNamesStats (affine : Affine) (nodata : pyval)
           (vector : Vector) (array : ndarray) (name_field : string)
           (feature_list stat_list : list property) (stat_select : string)
  : outcome (list property * list property) :=
  temp <- zonal_stats vector array affine nodata stat_select ;;
  append_names_stats temp name_field stat_select feature_list stat_list.

(** The two calls leave [stat_select] of [getNamesStats] at its default. *)
Definition zonalStats (municipal_filter service_areas : Vector)
           (array : ndarray) (affine : Affine) (nodata : pyval)
           (stat_select mun_name_field provider_name_field : string)
  : outcome (list property * list property * list property * list property) :=
  mun <- getNamesStats affine nodata municipal_filter array mun_name_field
                       [] [] "sum" ;;
  provider <- getNamesStats affine nodata service_areas array
                            provider_name_field [] [] "sum" ;;
  Return (fst mun, snd mun, fst provider, snd provider).
End ZonalStats.

(** * Part II: the vocabulary of the properties *)

(** ** The mass-generation transform *)

(** What [computeArray] leaves in a cell whose population is [p]. *)
Definition mass (p sw_ppd : float) : float :=
  if p <? 0 then nan else p * sw_ppd * 7 / 1000.

(** ** The order of binary64 values *)

(** [SFcompare] is the lexicographic order of (class and sign, exponent,
    mantissa); NaN has no rank. *)
Definition lex_rank (x : spec_float) : option (Z * Z * Z) :=
  match x with
  | S754_nan => None
  | S754_infinity true => Some (-2, 0, 0)%Z
  | S754_finite true m e => Some (-1, - e, - Zpos m)%Z
  | S754_zero _ => Some (0, 0, 0)%Z
  | S754_finite false m e => Some (1, e, Zpos m)%Z
  | S754_infinity false => Some (2, 0, 0)%Z
  end.

Definition lex_lt (a b : Z * Z * Z) : Prop :=
  let '(a1, a2, a3) := a in
  let '(b1, b2, b3) := b in
  (a1 < b1 \/ (a1 = b1 /\ (a2 < b2 \/ (a2 = b2 /\ a3 < b3))))%Z.

Definition rank (x : float) : option (Z * Z * Z) := lex_rank (Prim2SF x).

(** ** Sorting items whose values are all numbers *)

Definition item := (string * float)%type.

Definition wrap (p : item) : string * pyval := (fst p, PyFloat (snd p)).

Fixpoint insort_num (x : item) (run : list item) : list item :=
  match run with
  | [] => [x]
  | y :: run' => if snd x <? snd y then x :: run else y :: insort_num x run'
  end.

Fixpoint sort_forward_num (todo run : list item) : list item :=
  match todo with
  | [] => run
  | x :: todo' => sort_forward_num todo' (insort_num x run)
  end.

Definition ranked (l : list item) : list item :=
  rev (sort_forward_num (rev l) []).

(** Ascending and descending runs: no later value is below (above) an
    earlier one. *)
Definition ascending : list item -> Prop :=
  StronglySorted (fun a b => (snd b <? snd a) = false).
Definition descending : list item -> Prop :=
  StronglySorted (fun a b => (snd a <? snd b) = false).

(** Stability: the items of any one value come out in the order they went in. *)
Definition valued (v : float) (p : item) : bool := snd p =? v.

(** Filling a dictionary from pairs, starting from [d]. *)
Definition update {V} (d : dict V) (pairs : list (string * V)) : dict V :=
  fold_left (fun d kv => setitem d (fst kv) (snd kv)) pairs d.

(** ** [processStats] on defined, finite statistics *)

Definition is_finite (x : float) : bool :=
  match Prim2SF x with
  | S754_zero _ | S754_finite _ _ _ => true
  | _ => false
  end.

(** [int(x)] where it is defined. *)
Definition trunc (x : float) : Z :=
  match py_int (PyFloat x) with
  | Return n => n
  | Raise _ => 0%Z
  end.

(** A value that [int] accepts: a float that is neither NaN nor infinite. *)
Definition finite_value (v : pyval) : Prop :=
  exists x, v = PyFloat x /\ is_finite x = true.

(** The line printed for an item. *)
Definition line (p : item) : string :=
  (fst p ++ " : " ++ format_thousands (trunc (snd p)) ++ " tonnes")%string.

Definition all_finite (l : list item) : Prop :=
  Forall (fun p => is_finite (snd p) = true) l.

(** The deficits of defined statistics, position by position. *)
Definition deficits (xs coll : list float) : list float :=
  map (fun ij => fst ij - snd ij) (combine xs coll).

Definition header1 : string :=
  ("Municipalities by solid waste generated per week (descending):" ++ nl)%string.
Definition header2 : string :=
  (nl ++ "Service providers by total uncollected solid waste per week (descending)" ++ nl)%string.

(** The two rankings of a run whose statistics are all numbers. *)
Definition mun_ranking (mun_names : list string) (mun_xs : list float) : list item :=
  ranked (py_dict (combine mun_names mun_xs)).
Definition provider_ranking (provider_names : list string)
           (provider_xs coll : list float) : list item :=
  ranked (py_dict (combine provider_names (deficits provider_xs coll))).

(** ** The rankings *)

(** [ranking] lists [pairs] by descending value, equal values in the order
    of [pairs]. *)
Definition is_ranking_of (pairs ranking : list item) : Prop :=
  Permutation pairs ranking /\
  descending ranking /\
  forall v, filter (valued v) ranking = filter (valued v) pairs.

(** [ranking] has one entry for each name of [pairs], with the value of the
    last pair of that name. *)
Definition is_collapse_of (pairs ranking : list item) : Prop :=
  NoDup (map fst ranking) /\
  (forall n, In n (map fst ranking) <-> In n (map fst pairs)) /\
  forall before n x after,
    pairs = before ++ (n, x) :: after -> ~ In n (map fst after) ->
    In (n, x) ranking /\ forall y, In (n, y) ranking -> y = x.

(** Rounding a non-zero magnitude whose exponent is not below the least one
    never gives zero: the result is finite or infinite, with the sign given. *)
Definition signed_nonzero (s : bool) (x : spec_float) : Prop :=
  (exists m e, x = S754_finite s m e) \/ x = S754_infinity s.

Definition is_neg (x : spec_float) : bool :=
  match x with
  | S754_infinity true | S754_finite true _ _ => true
  | _ => false
  end.

(** Twice a number whose mantissa is full: the exponent goes up by one,
    unless that overflows. *)
Definition SFdouble (x : spec_float) : spec_float :=
  match x with
  | S754_finite s m e =>
      if (e + 1 <=? 971)%Z then S754_finite s m (e + 1) else S754_infinity s
  | _ => x
  end.

(** Where rounding [m * 2^e] shifts as much as rounding [m * 2^(e+1)]. *)
Definition same_shift (m e : Z) : Prop :=
  (-1074 <= Zdigits2 m + e - 53 \/ SpecFloat.fexp prec emax (Zdigits2 m + e) <= e)%Z.

Definition two_sf : spec_float := S754_finite false 4503599627370496 (-51).

(** Magnitudes well inside the normal range: finite, and at least 2^-1000. *)
Definition tiny : float := 0x1p-1000.

Definition in_range (x : float) : bool := is_finite x && (tiny <=? abs x).

(** Where the three steps of [computeArray] on a cell stay in that range at
    the rate [r] and do not overflow at the rate [2 * r]. *)
Definition scales (p r : float) : bool :=
  in_range (p * r) && in_range (p * r * 7) && in_range (p * r * 7 / 1000) &&
  is_finite (p * (2 * r)) && is_finite (p * (2 * r) * 7).

(** The cells on which doubling the rate is exact: no-data, empty, or with
    all three steps in range. *)
Definition doubles (p r : float) : bool :=
  (p <? 0) || is_nan p || (p =? 0) || scales p r.

(** Values that double exactly: zero or in range, and finite when doubled. *)
Definition doubling_ok (x : float) : bool :=
  ((x =? 0) || in_range x) && is_finite (2 * x).

Definition dbl (p : item) : item := (fst p, 2 * snd p).

Definition all_doubling_ok (l : list item) : Prop :=
  Forall (fun p => doubling_ok (snd p) = true) l.

(** ** Sums of cells *)

Definition above_least (x : spec_float) : Prop :=
  match x with
  | S754_finite _ _ e => (-1074 < e)%Z
  | _ => True
  end.

(** A sum of terms in some order of additions. *)
Inductive summation (A : Type) :=
| Term (a : A)
| Plus (t u : summation A).
Arguments Term {A} a.
Arguments Plus {A} t u.

Fixpoint total {A} (value : A -> float) (t : summation A) : float :=
  match t with
  | Term a => value a
  | Plus t u => total value t + total value u
  end.

Fixpoint terms {A} (t : summation A) : list A :=
  match t with
  | Term a => [a]
  | Plus t u => terms t ++ terms u
  end.

(** Every term and every partial sum doubles exactly. *)
Fixpoint sums_ok {A} (value : A -> float) (t : summation A) : Prop :=
  match t with
  | Term a => doubling_ok (value a) = true
  | Plus t u =>
      sums_ok value t /\ sums_ok value u /\
      doubling_ok (total value t + total value u) = true
  end.

Definition value (a : ndarray) (ij : nat * nat) : float :=
  match cell a (fst ij) (snd ij) with
  | Some x => x
  | None => nan
  end.

(** ** Signs, causes of exceptions and the order of names *)

(** A number that carries the sign [s]: a zero, a finite number or an
    infinity of that sign, and not NaN. *)
Definition has_sign (s : bool) (x : spec_float) : Prop :=
  match x with
  | S754_zero s' | S754_infinity s' | S754_finite s' _ _ => s' = s
  | S754_nan => False
  end.

Definition is_infinite (x : float) : bool :=
  match Prim2SF x with
  | S754_infinity _ => true
  | _ => false
  end.

(** The numbers a run of [processStats] puts into its two dictionaries: a
    municipal statistic, or a statistic of a service area minus the reported
    total at the same position. *)
Definition run_value (service_areas : GeoDataFrame) (provider_coll_field : string)
           (mun_stats provider_stats : list pyval) (x : float) : Prop :=
  In (PyFloat x) mun_stats \/
  exists provider_coll g r,
    column service_areas provider_coll_field = Return provider_coll /\
    In (PyFloat g, r) (combine provider_stats provider_coll) /\
    x = g - r.

(** The names of a list without their repetitions, each at the place where
    it first occurs. *)
Fixpoint first_occurrences (names : list string) : list string :=
  match names with
  | [] => []
  | n :: names' =>
      n :: filter (fun k => negb (String.eqb n k)) (first_occurrences names')
  end.

(** A feature that lacks one of the two properties [getNamesStats] reads. *)
Definition lacks (name_field stat_select : string) (f : feature_dict) : Prop :=
  get (properties f) name_field = None \/ get (properties f) stat_select = None.

(** ** Inputs of the concrete runs *)

(** A raster of one cell. *)
Definition one_cell (p : float) : DatasetReader unit unit :=
  {| ds_nodata := PyNone;
     ds_window := fun _ _ _ _ => Return tt;
     ds_read := fun _ _ => Return [[p]];
     ds_window_transform := fun _ => Return tt |}.

(** A raster window of three cells: 120 persons, a no-data sentinel, nobody. *)
Definition three_cells : DatasetReader unit unit :=
  {| ds_nodata := PyFloat (-99999);
     ds_window := fun _ _ _ _ => Return tt;
     ds_read := fun _ _ => Return [[120; -99999; 0]];
     ds_window_transform := fun _ => Return tt |}.

Definition two_zones : unit -> ndarray -> unit -> pyval -> string
                       -> outcome (list feature_dict) :=
  fun _ _ _ _ _ =>
    Return [ {| properties := [("ADM2_EN", Text "Ikeja"); ("sum", Stat (PyFloat 12))] |};
             {| properties := [("ADM2_EN", Text "Epe"); ("sum", Stat PyNone)] |} ]%string.

Definition lagos_areas : GeoDataFrame := [("total_coll", [120; 10])]%string.

(** * Part III: lemmas and theorems *)

(** ** Facts on binary64 *)

Lemma is_nan_spec x : is_nan x = true <-> Prim2SF x = S754_nan.
Proof.
  unfold is_nan. rewrite eqb_spec. unfold SFeqb, SFcompare.
  destruct (Prim2SF x) as [s|s| |s m e] eqn:E; simpl;
    try (split; [discriminate|discriminate]).
  - destruct s; split; discriminate.
  - split; reflexivity.
  - destruct s.
    + rewrite Z.compare_refl, Pos.compare_cont_refl. split; discriminate.
    + rewrite Z.compare_refl, Pos.compare_cont_refl. split; discriminate.
Qed.

Lemma Prim2SF_nan : Prim2SF nan = S754_nan.
Proof. reflexivity. Qed.

Lemma nan_unique x : is_nan x = true -> x = nan.
Proof.
  intros H. apply is_nan_spec in H. apply Prim2SF_inj. now rewrite H.
Qed.

Lemma mul_nan_l y : nan * y = nan.
Proof.
  apply Prim2SF_inj. rewrite mul_spec, Prim2SF_nan. reflexivity.
Qed.

Lemma div_nan_l y : nan / y = nan.
Proof.
  apply Prim2SF_inj. rewrite div_spec, Prim2SF_nan. reflexivity.
Qed.

Lemma ltb_nan_l y : (nan <? y) = false.
Proof. rewrite ltb_spec, Prim2SF_nan. reflexivity. Qed.

Lemma ltb_nan_r x : (x <? nan) = false.
Proof.
  rewrite ltb_spec, Prim2SF_nan. unfold SFltb, SFcompare.
  now destruct (Prim2SF x).
Qed.

(** ** The mass-generation transform *)

Lemma cell_map (f : float -> float) a i j :
  cell (map (map f) a) i j = option_map f (cell a i j).
Proof.
  unfold cell. rewrite nth_error_map.
  destruct (nth_error a i) as [row|]; simpl; [|reflexivity].
  now rewrite nth_error_map.
Qed.

Lemma mass_steps p r :
  (if p <? 0 then nan else p) * r * 7 / 1000 = mass p r.
Proof.
  unfold mass. destruct (p <? 0); [|reflexivity].
  now rewrite !mul_nan_l, div_nan_l.
Qed.

Lemma computeArray_array {Window Affine} (dataset : DatasetReader Window Affine)
      minx miny maxx maxy sw_ppd window pop_array affine :
  ds_window dataset minx miny maxx maxy = Return window ->
  ds_read dataset 1 window = Return pop_array ->
  ds_window_transform dataset window = Return affine ->
  computeArray dataset (minx, miny, maxx, maxy) sw_ppd =
  Return (map (map (fun p => mass p sw_ppd)) pop_array, affine, ds_nodata dataset).
Proof.
  intros Hw Hr Ht. unfold computeArray. rewrite Hw. simpl. rewrite Hr. simpl.
  rewrite Ht. simpl. do 3 f_equal.
  unfold array_div, array_mul, set_negative_nan. rewrite !map_map.
  apply map_ext. intros row. rewrite !map_map. apply map_ext. intros p.
  apply mass_steps.
Qed.

(** C1.  Whatever window of the raster is read, [computeArray] returns an
    array of the same shape in which the cell of population [p] holds
    [p * sw_ppd * 7 / 1000], except that a negative [p] (a no-data sentinel
    such as -99999) gives NaN: the sentinel is replaced before any
    arithmetic, so such a cell is never a negative mass. *)
Theorem C1_mass_generation {Window Affine} (dataset : DatasetReader Window Affine)
        minx miny maxx maxy sw_ppd window pop_array affine :
  ds_window dataset minx miny maxx maxy = Return window ->
  ds_read dataset 1 window = Return pop_array ->
  ds_window_transform dataset window = Return affine ->
  exists array,
    computeArray dataset (minx, miny, maxx, maxy) sw_ppd =
      Return (array, affine, ds_nodata dataset) /\
    map (@List.length float) array = map (@List.length float) pop_array /\
    forall i j p, cell pop_array i j = Some p ->
      exists m, cell array i j = Some m /\
        ((p <? 0) = false -> m = p * sw_ppd * 7 / 1000) /\
        ((p <? 0) = true -> m = nan /\ is_nan m = true /\ (m <? 0) = false).
Proof.
  intros Hw Hr Ht. eexists. split; [exact (computeArray_array _ _ _ _ _ _ _ _ _ Hw Hr Ht)|].
  split.
  - rewrite map_map. apply map_ext. intros row. apply length_map.
  - intros i j p Hp. rewrite cell_map, Hp. simpl. eexists. split; [reflexivity|].
    unfold mass. split; intros Hneg; rewrite Hneg; [reflexivity|].
    repeat split; reflexivity.
Qed.

(** ** The order of binary64 values *)

Lemma lex_lt_total a b : ~ lex_lt a b -> ~ lex_lt b a -> b = a.
Proof.
  destruct a as [[a1 a2] a3], b as [[b1 b2] b3]. simpl. intros H1 H2.
  assert (a1 = b1 /\ a2 = b2 /\ a3 = b3)%Z as (-> & -> & ->) by lia.
  reflexivity.
Qed.

Ltac lex_no :=
  split;
  [ discriminate
  | let a := fresh in let b := fresh in let Ha := fresh in let Hb := fresh in
    let H := fresh in
    intros (a & b & Ha & Hb & H); try discriminate;
    inversion Ha; inversion Hb; subst; simpl in H; lia ].

Ltac lex_yes :=
  split; [ intros _; eexists; eexists; repeat split; simpl; lia | reflexivity ].

Lemma SFltb_lex x y :
  SFltb x y = true <->
  exists a b, lex_rank x = Some a /\ lex_rank y = Some b /\ lex_lt a b.
Proof.
  unfold SFltb, SFcompare.
  destruct x as [sx|sx| |sx mx ex], y as [sy|sy| |sy my ey]; simpl;
    try lex_no; try destruct sx; try destruct sy; simpl;
    try lex_no; try lex_yes.
  all: fold (Pos.compare mx my);
    destruct (Z.compare_spec ex ey); destruct (Pos.compare_spec mx my); simpl;
    try lex_no; lex_yes.
Qed.

Lemma ltb_rank x y :
  (x <? y) = true <-> exists a b, rank x = Some a /\ rank y = Some b /\ lex_lt a b.
Proof. rewrite ltb_spec. apply SFltb_lex. Qed.

Lemma rank_defined x : is_nan x = false -> exists a, rank x = Some a.
Proof.
  intros H. unfold rank. destruct (Prim2SF x) as [s|s| |s m e] eqn:E.
  - eexists; reflexivity.
  - destruct s; eexists; reflexivity.
  - apply is_nan_spec in E. congruence.
  - destruct s; eexists; reflexivity.
Qed.

Lemma ltb_false_rank x y a b :
  rank x = Some a -> rank y = Some b -> (x <? y) = false -> ~ lex_lt a b.
Proof.
  intros Ha Hb Hlt Hab.
  assert ((x <? y) = true) by (apply ltb_rank; eauto). congruence.
Qed.

Ltac triples :=
  repeat match goal with
         | a : (Z * Z * Z)%type |- _ => destruct a as [[? ?] ?]
         end; simpl in *.

Lemma ltb_irrefl x : (x <? x) = false.
Proof.
  destruct (x <? x) eqn:E; [|reflexivity].
  apply ltb_rank in E. destruct E as (a & b & Ha & Hb & H).
  rewrite Ha in Hb. inversion Hb; subst. triples. lia.
Qed.

Lemma ltb_asym x y : (x <? y) = true -> (y <? x) = false.
Proof.
  intros H. destruct (y <? x) eqn:E; [|reflexivity].
  apply ltb_rank in H, E.
  destruct H as (a & b & Ha & Hb & H), E as (b' & a' & Hb' & Ha' & H').
  rewrite Ha in Ha'. rewrite Hb in Hb'. inversion Ha'. inversion Hb'. subst.
  triples. lia.
Qed.

Lemma ltb_trans x y z : (x <? y) = true -> (y <? z) = true -> (x <? z) = true.
Proof.
  intros H1 H2. apply ltb_rank in H1, H2. apply ltb_rank.
  destruct H1 as (a & b & Ha & Hb & H), H2 as (b' & c & Hb' & Hc & H').
  rewrite Hb in Hb'. inversion Hb'. subst.
  exists a, c. repeat split; trivial. triples. lia.
Qed.

(** A number that compares with everything: between any [x < z] it is above
    [x] or below [z]. *)
Lemma ltb_cotrans x y z :
  is_nan y = false -> (x <? z) = true -> (x <? y) = true \/ (y <? z) = true.
Proof.
  intros Hy H. apply rank_defined in Hy. destruct Hy as (b & Hb).
  apply ltb_rank in H. destruct H as (a & c & Ha & Hc & H).
  destruct (x <? y) eqn:E; [now left|right].
  apply ltb_rank. exists b, c. repeat split; trivial.
  pose proof (ltb_false_rank _ _ _ _ Ha Hb E). triples. lia.
Qed.

Lemma eqb_rank x y :
  (x =? y) = true <-> exists a, rank x = Some a /\ rank y = Some a.
Proof.
  rewrite eqb_spec. unfold rank, SFeqb, SFcompare.
  destruct (Prim2SF x) as [sx|sx| |sx mx ex], (Prim2SF y) as [sy|sy| |sy my ey];
    simpl; try destruct sx; try destruct sy; simpl;
    try (split; [discriminate | intros (a & Ha & Hb); congruence]);
    try (split; [intros _; eexists; split; reflexivity | reflexivity]).
  all: fold (Pos.compare mx my);
    destruct (Z.compare_spec ex ey); destruct (Pos.compare_spec mx my); simpl;
    try (split; [discriminate | intros (a & Ha & Hb); inversion Ha; subst; inversion Hb; lia]);
    try (split; [intros _; subst; eexists; split; reflexivity | reflexivity]).
Qed.

(** Two numbers are equal exactly when neither is below the other. *)
Lemma eqb_ltb x y :
  is_nan x = false -> is_nan y = false ->
  (x =? y) = negb (x <? y) && negb (y <? x).
Proof.
  intros Hx Hy. apply rank_defined in Hx, Hy.
  destruct Hx as (a & Ha), Hy as (b & Hb).
  destruct (x <? y) eqn:E1; simpl.
  - destruct (x =? y) eqn:E; [|reflexivity]. apply eqb_rank in E.
    destruct E as (c & Hc & Hc'). apply ltb_rank in E1.
    destruct E1 as (a' & b' & Ha' & Hb' & H).
    assert (a' = c) by congruence. assert (b' = c) by congruence. subst.
    triples. lia.
  - destruct (y <? x) eqn:E2; simpl.
    + destruct (x =? y) eqn:E; [|reflexivity]. apply eqb_rank in E.
      destruct E as (c & Hc & Hc'). apply ltb_rank in E2.
      destruct E2 as (a' & b' & Ha' & Hb' & H).
      assert (a' = c) by congruence. assert (b' = c) by congruence. subst.
      triples. lia.
    + apply eqb_rank.
      pose proof (ltb_false_rank _ _ _ _ Ha Hb E1).
      pose proof (ltb_false_rank _ _ _ _ Hb Ha E2).
      exists a. split; trivial. rewrite Hb. f_equal. now apply lex_lt_total.
Qed.

(** ** Sorting items whose values are all numbers *)

Lemma insort_wrap x run :
  insort (wrap x) (map wrap run) = Return (map wrap (insort_num x run)).
Proof.
  induction run as [|y run IH]; simpl; [reflexivity|].
  destruct (snd x <? snd y); simpl; [reflexivity|].
  rewrite IH. reflexivity.
Qed.

Lemma sort_forward_wrap todo run :
  sort_forward (map wrap todo) (map wrap run) =
  Return (map wrap (sort_forward_num todo run)).
Proof.
  revert run. induction todo as [|x todo IH]; intros run; simpl; [reflexivity|].
  rewrite insort_wrap. simpl. apply IH.
Qed.

Lemma sorted_wrap l :
  sorted_by_value_reverse (map wrap l) = Return (map wrap (ranked l)).
Proof.
  unfold sorted_by_value_reverse, ranked. rewrite <- map_rev.
  change (@nil (string * pyval)) with (map wrap []).
  rewrite sort_forward_wrap. simpl. now rewrite map_rev.
Qed.

Lemma insort_num_perm x run : Permutation (x :: run) (insort_num x run).
Proof.
  induction run as [|y run IH]; simpl; [reflexivity|].
  destruct (snd x <? snd y); [reflexivity|].
  rewrite perm_swap. now apply perm_skip.
Qed.

Lemma sort_forward_num_perm todo run :
  Permutation (todo ++ run) (sort_forward_num todo run).
Proof.
  revert run. induction todo as [|x todo IH]; intros run; simpl; [reflexivity|].
  rewrite <- IH. rewrite <- insort_num_perm. apply Permutation_middle.
Qed.

Lemma ranked_perm l : Permutation l (ranked l).
Proof.
  unfold ranked. rewrite <- Permutation_rev.
  rewrite <- sort_forward_num_perm, app_nil_r. apply Permutation_rev.
Qed.

Lemma insort_num_ascending x run : ascending run -> ascending (insort_num x run).
Proof.
  unfold ascending. induction run as [|y run IH]; intros Hs; simpl.
  - constructor; constructor.
  - apply StronglySorted_inv in Hs. destruct Hs as [Hs Hy].
    destruct (snd x <? snd y) eqn:E.
    + constructor; [constructor; trivial|].
      constructor; [now apply ltb_asym|].
      rewrite Forall_forall in *. intros z Hz. specialize (Hy z Hz). simpl in Hy.
      destruct (snd z <? snd x) eqn:E'; [|reflexivity].
      rewrite (ltb_trans _ _ _ E' E) in Hy. discriminate.
    + constructor; [now apply IH|].
      eapply Permutation_Forall; [apply insort_num_perm|].
      constructor; trivial.
Qed.

Lemma sort_forward_num_ascending todo run :
  ascending run -> ascending (sort_forward_num todo run).
Proof.
  revert run. induction todo as [|x todo IH]; intros run Hs; simpl; trivial.
  apply IH. now apply insort_num_ascending.
Qed.

Lemma StronglySorted_snoc {A} (R : A -> A -> Prop) l x :
  StronglySorted R l -> Forall (fun y => R y x) l -> StronglySorted R (l ++ [x]).
Proof.
  induction 1 as [|a l Hl IH Ha]; intros Hx; simpl.
  - constructor; constructor.
  - inversion Hx; subst. constructor; [now apply IH|].
    apply Forall_app. split; trivial. now constructor.
Qed.

Lemma StronglySorted_rev {A} (R : A -> A -> Prop) l :
  StronglySorted R l -> StronglySorted (fun a b => R b a) (rev l).
Proof.
  induction 1 as [|a l Hl IH Ha]; simpl; [constructor|].
  apply StronglySorted_snoc; trivial. now apply Forall_rev.
Qed.

Lemma ranked_descending l : descending (ranked l).
Proof.
  unfold descending, ranked.
  apply (StronglySorted_rev (fun a b : item => (snd b <? snd a) = false)).
  apply sort_forward_num_ascending. constructor.
Qed.

Lemma valued_above v (x y z : item) :
  valued v x = true -> valued v z = true ->
  (snd x <? snd y) = true -> (snd z <? snd y) = false -> False.
Proof.
  unfold valued. intros Hx Hz Hlt Hge.
  apply eqb_rank in Hx, Hz. destruct Hx as (a & Hx & Hv), Hz as (a' & Hz & Hv').
  assert (a' = a) by congruence. subst a'.
  apply ltb_rank in Hlt. destruct Hlt as (a' & b & Hx' & Hy & Hlt).
  assert (a' = a) by congruence. subst a'.
  exact (ltb_false_rank _ _ _ _ Hz Hy Hge Hlt).
Qed.

Lemma insort_num_stable v x run :
  ascending run ->
  filter (valued v) (insort_num x run) = filter (valued v) run ++ filter (valued v) [x].
Proof.
  unfold ascending. induction run as [|y run IH]; intros Hs; [reflexivity|].
  apply StronglySorted_inv in Hs. destruct Hs as [Hs Hy]. simpl insort_num.
  destruct (snd x <? snd y) eqn:E.
  - destruct (valued v x) eqn:Ex.
    + assert (filter (valued v) (y :: run) = []) as Hnil.
      { assert (Forall (fun z => valued v z = false) (y :: run)) as Hall.
        { constructor.
          - destruct (valued v y) eqn:Ey; [|reflexivity].
            exfalso. apply (valued_above v x y y Ex Ey E). apply ltb_irrefl.
          - rewrite Forall_forall in *. intros z Hz.
            destruct (valued v z) eqn:Ez; [|reflexivity].
            exfalso. apply (valued_above v x y z Ex Ez E). now apply Hy. }
        clear - Hall. induction Hall as [|z l Hz _ IHl]; simpl; [reflexivity|].
        now rewrite Hz. }
      change (x :: y :: run) with ([x] ++ y :: run).
      rewrite filter_app, Hnil. now rewrite app_nil_r.
    + simpl. rewrite Ex. now rewrite app_nil_r.
  - simpl filter at 1. rewrite (IH Hs). simpl.
    destruct (valued v y); reflexivity.
Qed.

Lemma sort_forward_num_stable v todo run :
  ascending run ->
  filter (valued v) (sort_forward_num todo run) =
  filter (valued v) run ++ filter (valued v) todo.
Proof.
  revert run. induction todo as [|x todo IH]; intros run Hs; simpl sort_forward_num.
  - now rewrite app_nil_r.
  - rewrite IH by now apply insort_num_ascending.
    rewrite insort_num_stable by trivial. rewrite <- app_assoc. f_equal.
    simpl. destruct (valued v x); reflexivity.
Qed.

Lemma ranked_stable v l : filter (valued v) (ranked l) = filter (valued v) l.
Proof.
  unfold ranked. rewrite filter_rev, sort_forward_num_stable by constructor.
  simpl. rewrite filter_rev. apply rev_involutive.
Qed.

(** ** Dictionaries *)

Section Dict.
Context {V : Type}.
Implicit Types (d : dict V) (k : string) (v : V) (pairs : list (string * V)).

Lemma setitem_fresh d k v :
  ~ In k (map fst d) -> setitem d k v = d ++ [(k, v)].
Proof.
  induction d as [|[k' v'] d IH]; simpl; intros Hk; [reflexivity|].
  destruct (String.eqb_spec k' k) as [->|Hne]; [tauto|].
  rewrite IH by tauto. reflexivity.
Qed.

Lemma setitem_keys d k v :
  In k (map fst d) -> map fst (setitem d k v) = map fst d.
Proof.
  induction d as [|[k' v'] d IH]; simpl; intros Hk; [tauto|].
  destruct (String.eqb_spec k' k) as [->|Hne]; simpl; [reflexivity|].
  rewrite IH; [reflexivity|]. destruct Hk; [contradiction|trivial].
Qed.

Lemma in_keys_setitem d k v k' :
  In k' (map fst (setitem d k v)) <-> k' = k \/ In k' (map fst d).
Proof.
  destruct (in_dec string_dec k (map fst d)) as [Hin|Hout].
  - rewrite setitem_keys by trivial. split; [tauto|]. intros [->|]; trivial.
  - rewrite setitem_fresh, map_app, in_app_iff by trivial. simpl.
    split; [intros [?|[?|[]]]; auto | intros [?|?]; auto].
Qed.

Lemma setitem_NoDup d k v :
  NoDup (map fst d) -> NoDup (map fst (setitem d k v)).
Proof.
  intros Hd. destruct (in_dec string_dec k (map fst d)) as [Hin|Hout].
  - now rewrite setitem_keys.
  - rewrite setitem_fresh, map_app by trivial. simpl.
    apply NoDup_app; [trivial|repeat constructor; simpl; tauto|].
    intros a Ha [<-|[]]. contradiction.
Qed.

Lemma get_setitem d k v k' :
  get (setitem d k v) k' = if String.eqb k k' then Some v else get d k'.
Proof.
  induction d as [|[k0 v0] d IH]; simpl.
  - reflexivity.
  - destruct (String.eqb_spec k0 k) as [->|Hne]; simpl.
    + destruct (String.eqb_spec k k'); reflexivity.
    + rewrite IH. destruct (String.eqb_spec k0 k') as [->|]; [|reflexivity].
      destruct (String.eqb_spec k k'); [congruence|reflexivity].
Qed.

Lemma get_app d d' k :
  get (d ++ d') k = match get d k with Some v => Some v | None => get d' k end.
Proof.
  induction d as [|[k0 v0] d IH]; simpl; [reflexivity|].
  destruct (String.eqb k0 k); [reflexivity|apply IH].
Qed.

Lemma get_In d k v : get d k = Some v -> In (k, v) d.
Proof.
  induction d as [|[k0 v0] d IH]; simpl; [discriminate|].
  destruct (String.eqb_spec k0 k) as [->|]; [|auto].
  intros [= ->]. now left.
Qed.

Lemma In_get d k v : NoDup (map fst d) -> In (k, v) d -> get d k = Some v.
Proof.
  induction d as [|[k0 v0] d IH]; simpl; [tauto|].
  intros Hnd [[= -> ->]|Hin].
  - now rewrite String.eqb_refl.
  - inversion Hnd; subst. destruct (String.eqb_spec k0 k) as [->|]; [|auto].
    exfalso. apply H1. apply (in_map fst) in Hin. exact Hin.
Qed.

Lemma get_None d k : get d k = None <-> ~ In k (map fst d).
Proof.
  induction d as [|[k0 v0] d IH]; simpl; [tauto|].
  destruct (String.eqb_spec k0 k) as [->|]; [split; [discriminate|tauto]|].
  rewrite IH. tauto.
Qed.

Lemma update_NoDup pairs d :
  NoDup (map fst d) -> NoDup (map fst (update d pairs)).
Proof.
  revert d. induction pairs as [|[k v] pairs IH]; intros d Hd; simpl; trivial.
  apply IH. now apply setitem_NoDup.
Qed.

Lemma update_keys pairs d k :
  In k (map fst (update d pairs)) <-> In k (map fst d) \/ In k (map fst pairs).
Proof.
  revert d. induction pairs as [|[k0 v0] pairs IH]; intros d; simpl; [tauto|].
  rewrite IH, in_keys_setitem. intuition congruence.
Qed.

(** The value kept for a key is the last one given for it. *)
Lemma update_get pairs d k :
  get (update d pairs) k =
  match get (rev pairs) k with Some v => Some v | None => get d k end.
Proof.
  revert d. induction pairs as [|[k0 v0] pairs IH]; intros d; simpl; [reflexivity|].
  rewrite IH, get_app, get_setitem. simpl.
  destruct (get (rev pairs) k); [reflexivity|].
  destruct (String.eqb k0 k); reflexivity.
Qed.

Lemma update_distinct pairs d :
  NoDup (map fst (d ++ pairs)) -> update d pairs = d ++ pairs.
Proof.
  revert d. induction pairs as [|[k v] pairs IH]; intros d Hnd; simpl.
  - now rewrite app_nil_r.
  - assert (~ In k (map fst d)) as Hk.
    { rewrite map_app in Hnd. simpl in Hnd. apply NoDup_remove_2 in Hnd.
      rewrite in_app_iff in Hnd. tauto. }
    rewrite setitem_fresh by trivial. rewrite IH.
    + now rewrite <- app_assoc.
    + now rewrite <- app_assoc.
Qed.

Lemma py_dict_NoDup pairs : NoDup (map fst (py_dict pairs)).
Proof. apply (update_NoDup pairs []). constructor. Qed.

Lemma py_dict_keys pairs k :
  In k (map fst (py_dict pairs)) <-> In k (map fst pairs).
Proof. unfold py_dict. fold (update [] pairs). rewrite update_keys. simpl. tauto. Qed.

Lemma py_dict_get pairs k : get (py_dict pairs) k = get (rev pairs) k.
Proof.
  unfold py_dict. fold (update [] pairs). rewrite update_get. simpl.
  now destruct (get (rev pairs) k).
Qed.

Lemma py_dict_distinct pairs : NoDup (map fst pairs) -> py_dict pairs = pairs.
Proof. intros H. apply (update_distinct pairs []). exact H. Qed.

(** An entry of [dict(pairs)] is a name with the last value given for it. *)
Lemma py_dict_In pairs k v :
  In (k, v) (py_dict pairs) <-> get (rev pairs) k = Some v.
Proof.
  rewrite <- py_dict_get. split.
  - apply In_get, py_dict_NoDup.
  - apply get_In.
Qed.
End Dict.

Lemma setitem_map {V W} (f : V -> W) (d : dict V) k v :
  setitem (map (fun p : string * V => (fst p, f (snd p))) d) k (f v) =
  map (fun p : string * V => (fst p, f (snd p))) (setitem d k v).
Proof.
  induction d as [|[k0 v0] d IH]; simpl; [reflexivity|].
  destruct (String.eqb k0 k); simpl; [reflexivity|]. now rewrite IH.
Qed.

Lemma py_dict_map {V W} (f : V -> W) (pairs : list (string * V)) :
  py_dict (map (fun p : string * V => (fst p, f (snd p))) pairs) =
  map (fun p : string * V => (fst p, f (snd p))) (py_dict pairs).
Proof.
  unfold py_dict. change (@nil (string * W)) with (map (fun p : string * V => (fst p, f (snd p))) []).
  generalize (@nil (string * V)) as d.
  induction pairs as [|[k v] pairs IH]; intros d; simpl; [reflexivity|].
  rewrite setitem_map. apply IH.
Qed.

Lemma combine_wrap (names : list string) (xs : list float) :
  combine names (map PyFloat xs) = map wrap (combine names xs).
Proof.
  revert xs. induction names as [|n names IH]; intros [|x xs]; simpl; trivial.
  now rewrite IH.
Qed.

(** ** [processStats] on defined, finite statistics *)

Lemma py_int_finite x : is_finite x = true -> py_int (PyFloat x) = Return (trunc x).
Proof.
  unfold is_finite, trunc, py_int. now destruct (Prim2SF x).
Qed.

Lemma print_item_finite p out :
  is_finite (snd p) = true -> print_item (wrap p) out = (out ++ [line p], Return tt).
Proof.
  intros H. unfold print_item, bind, lift, wrap. cbn [fst snd].
  rewrite py_int_finite by trivial. reflexivity.
Qed.

Lemma for_each_print l out :
  all_finite l ->
  for_each print_item (map wrap l) out = (out ++ map line l, Return tt).
Proof.
  revert out. induction l as [|p l IH]; intros out Hl.
  - simpl. now rewrite app_nil_r.
  - inversion Hl; subst. cbn [map for_each]. unfold bind.
    rewrite print_item_finite by trivial. rewrite IH by trivial.
    rewrite <- app_assoc. reflexivity.
Qed.

Lemma uncollected_floats xs coll :
  uncollected (map PyFloat xs) coll = Return (map PyFloat (deficits xs coll)).
Proof.
  unfold uncollected, deficits. revert coll.
  induction xs as [|x xs IH]; intros [|j coll]; simpl; trivial.
  rewrite IH. reflexivity.
Qed.

Lemma ranked_all_finite l : all_finite l -> all_finite (ranked l).
Proof.
  unfold all_finite. intros H. eapply Permutation_Forall; [apply ranked_perm|exact H].
Qed.

Lemma py_dict_all_finite pairs : all_finite pairs -> all_finite (py_dict pairs).
Proof.
  unfold all_finite. rewrite !Forall_forall. intros H [k v] Hin.
  apply py_dict_In in Hin. apply get_In in Hin. apply in_rev in Hin.
  now apply H.
Qed.

Lemma processStats_numeric service_areas field coll
      mun_names mun_xs provider_names provider_xs out :
  column service_areas field = Return coll ->
  all_finite (combine mun_names mun_xs) ->
  all_finite (combine provider_names (deficits provider_xs coll)) ->
  processStats service_areas mun_names (map PyFloat mun_xs)
               provider_names (map PyFloat provider_xs) field out =
  (out ++ [header1] ++ map line (mun_ranking mun_names mun_xs)
       ++ [header2] ++ map line (provider_ranking provider_names provider_xs coll),
   Return (map wrap (mun_ranking mun_names mun_xs),
           map wrap (provider_ranking provider_names provider_xs coll))).
Proof.
  intros Hc Hm Hp. unfold processStats.
  unfold bind at 1. unfold lift at 1. rewrite Hc.
  unfold bind at 1. unfold lift at 1. rewrite uncollected_floats.
  rewrite !combine_wrap. unfold wrap at 1 3.
  rewrite !(py_dict_map PyFloat). unfold items.
  fold wrap. change (fun p : string * float => (fst p, PyFloat (snd p))) with wrap.
  unfold bind at 1. unfold lift at 1. rewrite sorted_wrap.
  unfold bind at 1. unfold lift at 1. rewrite sorted_wrap.
  fold (mun_ranking mun_names mun_xs).
  fold (provider_ranking provider_names provider_xs coll).
  unfold bind at 1. unfold print at 1.
  unfold bind at 1. rewrite for_each_print
    by (apply ranked_all_finite, py_dict_all_finite, Hm).
  unfold bind at 1. unfold print at 1.
  unfold bind at 1. rewrite for_each_print
    by (apply ranked_all_finite, py_dict_all_finite, Hp).
  unfold ret. fold header1. fold header2.
  rewrite <- !app_assoc. reflexivity.
Qed.

Lemma py_int_returns v n : py_int v = Return n -> finite_value v.
Proof.
  destruct v as [|x]; [discriminate|]. unfold py_int, finite_value, is_finite.
  intros H. exists x. split; [reflexivity|].
  destruct (Prim2SF x); try discriminate; reflexivity.
Qed.

Lemma for_each_print_returns l out out' u :
  for_each print_item l out = (out', Return u) ->
  Forall (fun i => finite_value (snd i)) l.
Proof.
  revert out. induction l as [|i l IH]; intros out H; [constructor|].
  cbn [for_each] in H. unfold bind at 1 in H.
  unfold print_item at 1, bind at 1, lift in H.
  destruct (py_int (snd i)) as [n|e] eqn:E; [|discriminate].
  unfold print in H. constructor; [eapply py_int_returns; eauto|].
  eapply IH; eauto.
Qed.

(** No ranking with an undefined, NaN or infinite value is ever returned:
    printing [int] of it raises first. *)
Theorem processStats_returns_finite service_areas mun_names mun_stats
        provider_names provider_stats provider_coll_field out out'
        mun_dict_sorted provider_dict_sorted :
  processStats service_areas mun_names mun_stats provider_names provider_stats
               provider_coll_field out =
    (out', Return (mun_dict_sorted, provider_dict_sorted)) ->
  Forall (fun i => finite_value (snd i)) mun_dict_sorted /\
  Forall (fun i => finite_value (snd i)) provider_dict_sorted.
Proof.
  unfold processStats. unfold bind at 1, lift at 1.
  destruct (column service_areas provider_coll_field) as [coll|]; [|discriminate].
  unfold bind at 1, lift at 1.
  destruct (uncollected provider_stats coll) as [unc|]; [|discriminate].
  unfold bind at 1, lift at 1.
  destruct (sorted_by_value_reverse (items (py_dict (combine mun_names mun_stats))))
    as [ms|]; [|discriminate].
  unfold bind at 1, lift at 1.
  destruct (sorted_by_value_reverse (items (py_dict (combine provider_names unc))))
    as [ps|]; [|discriminate].
  unfold bind at 1, print at 1. unfold bind at 1.
  destruct (for_each print_item ms _) as [o1 [u1|]] eqn:E1; [|discriminate].
  unfold bind at 1, print at 1. unfold bind at 1.
  destruct (for_each print_item ps _) as [o2 [u2|]] eqn:E2; [|discriminate].
  unfold ret. intros [= _ <- <-].
  split; eapply for_each_print_returns; eauto.
Qed.

Lemma processStats_returns_finite_witness :
  Forall (fun i => finite_value (snd i)) [("A"%string, PyFloat 30)] /\
  Forall (fun i => finite_value (snd i))
         [("Q"%string, PyFloat 40); ("P"%string, PyFloat (-20))].
Proof.
  exact (processStats_returns_finite
           lagos_areas ["A"%string] [PyFloat 30]
           ["P"; "Q"]%string [PyFloat 100; PyFloat 50] "total_coll" [] _ _ _ eq_refl).
Defined.

(** ** [zonalStats] *)

Section ZonalStatsFacts.
Context {Vector Affine : Type}.
Variable zonal_stats :
  Vector -> ndarray -> Affine -> pyval -> string -> outcome (list feature_dict).

Lemma append_names_stats_ok temp name_field stat_select feature_list stat_list :
  Forall (fun f => get (properties f) name_field <> None /\
                   get (properties f) stat_select <> None) temp ->
  exists names stats,
    append_names_stats temp name_field stat_select feature_list stat_list =
      Return (feature_list ++ names, stat_list ++ stats) /\
    Forall2 (fun f n => get (properties f) name_field = Some n) temp names /\
    Forall2 (fun f s => get (properties f) stat_select = Some s) temp stats.
Proof.
  revert feature_list stat_list.
  induction temp as [|f temp IH]; intros feature_list stat_list Hall.
  - exists [], []. simpl. rewrite !app_nil_r. repeat split; constructor.
  - inversion Hall as [|? ? [Hn Hs] Hall']; subst.
    destruct (get (properties f) name_field) as [n|] eqn:En; [|congruence].
    destruct (get (properties f) stat_select) as [s|] eqn:Es; [|congruence].
    destruct (IH (feature_list ++ [n]) (stat_list ++ [s]) Hall')
      as (names & stats & Heq & Hnames & Hstats).
    exists (n :: names), (s :: stats). simpl. unfold getitem.
    rewrite En, Es. simpl. rewrite Heq, <- !app_assoc. simpl.
    repeat split; constructor; trivial.
Qed.

(** [getNamesStats] records what [zonal_stats] reports, as it is: the
    statistic of the [i]-th feature yielded is the [i]-th entry appended to
    [stat_list], and where the feature holds [None] the entry is [None],
    which is not the number zero.  (For which zones [zonal_stats] reports
    [None] is decided by rasterstats, not here.) *)
Theorem getNamesStats_records_unchanged affine nodata vector array name_field
        feature_list stat_list stat_select temp :
  zonal_stats vector array affine nodata stat_select = Return temp ->
  Forall (fun f => get (properties f) name_field <> None /\
                   get (properties f) stat_select <> None) temp ->
  exists names stats,
    getNamesStats zonal_stats affine nodata vector array name_field
                  feature_list stat_list stat_select =
      Return (feature_list ++ names, stat_list ++ stats) /\
    List.length stats = List.length temp /\
    forall i f, nth_error temp i = Some f ->
      (forall s, get (properties f) stat_select = Some s ->
         nth_error (stat_list ++ stats) (List.length stat_list + i) = Some s) /\
      (get (properties f) stat_select = Some (Stat PyNone) ->
         nth_error (stat_list ++ stats) (List.length stat_list + i) = Some (Stat PyNone) /\
         nth_error (stat_list ++ stats) (List.length stat_list + i) <> Some (Stat (PyFloat 0))).
Proof.
  intros Hz Hall.
  destruct (append_names_stats_ok temp name_field stat_select feature_list
                                  stat_list Hall)
    as (names & stats & Heq & Hnames & Hstats).
  exists names, stats. unfold getNamesStats. rewrite Hz. simpl.
  split; [exact Heq|]. split; [symmetry; eapply Forall2_length; eauto|].
  assert (forall i f s, nth_error temp i = Some f ->
            get (properties f) stat_select = Some s ->
            nth_error (stat_list ++ stats) (List.length stat_list + i) = Some s) as Hpos.
  { intros i f s Hi Hs. rewrite nth_error_app2 by lia.
    replace (List.length stat_list + i - List.length stat_list)%nat with i by lia.
    clear - Hstats Hi Hs. revert i Hi.
    induction Hstats as [|f0 s0 temp stats H0 _ IH]; intros [|i] Hi;
      simpl in *; try discriminate.
    - inversion Hi; subst. congruence.
    - now apply IH. }
  intros i f Hi. split; [intros s; now apply Hpos|].
  intros Hs. rewrite (Hpos i f _ Hi Hs). split; [reflexivity|discriminate].
Qed.
End ZonalStatsFacts.

(** ** The deficits *)

Lemma uncollected_cons g r provider_stats provider_coll :
  uncollected (g :: provider_stats) (r :: provider_coll) =
  (d <- py_sub g r ;; ds <- uncollected provider_stats provider_coll ;; Return (d :: ds)).
Proof. reflexivity. Qed.

(** C2.  The loop either meets an undefined statistic among the zipped
    positions and raises, or it returns the list whose [i]-th entry is the
    [i]-th statistic minus the [i]-th reported total. *)
Theorem C2_deficit_by_position (provider_stats : list pyval) (provider_coll : list float) :
  (uncollected provider_stats provider_coll = Raise TypeError /\
   exists i, (i < List.length provider_coll)%nat /\
             nth_error provider_stats i = Some PyNone)
  \/
  (exists provider_uncoll,
      uncollected provider_stats provider_coll = Return provider_uncoll /\
      forall i g r,
        nth_error provider_stats i = Some g ->
        nth_error provider_coll i = Some r ->
        exists x, g = PyFloat x /\
                  nth_error provider_uncoll i = Some (PyFloat (x - r))).
Proof.
  revert provider_coll.
  induction provider_stats as [|g stats IH]; intros [|r coll].
  - right. exists []. split; [reflexivity|]. intros [|i]; discriminate.
  - right. exists []. split; [reflexivity|]. intros [|i]; discriminate.
  - right. exists []. split; [reflexivity|]. intros [|i] ? ? ?; discriminate.
  - rewrite uncollected_cons. destruct g as [|x]; simpl.
    + left. split; [reflexivity|]. exists 0%nat. simpl. split; [lia|reflexivity].
    + destruct (IH coll) as [(Hr & i & Hi & Hn)|(unc & Hu & Hpos)].
      * left. rewrite Hr. split; [reflexivity|]. exists (S i). simpl. split; [lia|trivial].
      * right. rewrite Hu. simpl. eexists. split; [reflexivity|].
        intros [|i] g' r' Hg Hr; simpl in *.
        -- inversion Hg; inversion Hr; subst. eauto.
        -- eauto.
Qed.

(** C10.  Whatever the two lengths, the loop only sees the first
    [min (len provider_stats) (len provider_coll)] entries of each list:
    the entries beyond are dropped without an error, and the list of
    deficits has that length.  Three statistics against two reported totals
    give two ranked deficits. *)
Theorem C10_truncates_to_shorter (provider_stats : list pyval) (provider_coll : list float) :
  let n := Nat.min (List.length provider_stats) (List.length provider_coll) in
  uncollected provider_stats provider_coll =
    uncollected (firstn n provider_stats) (firstn n provider_coll) /\
  (forall provider_uncoll,
      uncollected provider_stats provider_coll = Return provider_uncoll ->
      List.length provider_uncoll = n) /\
  ((exists provider_uncoll,
       uncollected provider_stats provider_coll = Return provider_uncoll) <->
   Forall (fun g => g <> PyNone) (firstn n provider_stats)) /\
  snd (processStats lagos_areas [] []
                    ["P"; "Q"; "R"]%string [PyFloat 100; PyFloat 50; PyFloat 7]
                    "total_coll" []) =
    Return ([], [("Q", PyFloat 40); ("P", PyFloat (-20))]%string).
Proof.
  cbv zeta. rewrite <- !and_assoc. split; [|reflexivity]. rewrite !and_assoc.
  revert provider_coll.
  induction provider_stats as [|g stats IH]; intros [|r coll]; cbn zeta.
  1-3: simpl; split; [reflexivity|];
    (split; [intros ? [= <-]; reflexivity|]);
    (split; [intros _; constructor|intros _; eexists; reflexivity]).
  - destruct (IH coll) as (Heq & Hlen & Hiff). cbn zeta in *.
    cbn [List.length Nat.min firstn]. rewrite !uncollected_cons.
    destruct g as [|x]; simpl.
    + repeat split; try discriminate.
      * intros (unc & H). discriminate.
      * intros H. inversion H; subst. congruence.
    + rewrite <- Heq.
      destruct (uncollected stats coll) as [unc|e] eqn:Hu; simpl.
      * repeat split.
        -- intros ? [= <-]. simpl. f_equal. now apply Hlen.
        -- intros _. constructor; [discriminate|]. apply Hiff. eauto.
        -- eauto.
      * repeat split; try discriminate.
        -- intros (unc & H). discriminate.
        -- intros H. inversion H; subst. apply Hiff in H3.
           destruct H3 as (unc & H3). discriminate.
Qed.

Lemma uncollected_undefined provider_stats provider_coll i :
  nth_error provider_stats i = Some PyNone ->
  (i < List.length provider_coll)%nat ->
  uncollected provider_stats provider_coll = Raise TypeError.
Proof.
  revert provider_coll i.
  induction provider_stats as [|g stats IH]; intros [|r coll] [|i] Hn Hi;
    simpl in *; try discriminate; try lia.
  - inversion Hn; subst. reflexivity.
  - rewrite uncollected_cons. destruct g; simpl; [reflexivity|].
    rewrite (IH coll i) by (trivial; lia). reflexivity.
Qed.

(** C5 (as the code has it).  A service area whose statistic is undefined
    and which has a reported total makes [processStats] raise [TypeError] at
    the subtraction: nothing is printed, no ranking is returned, and no
    number stands in for the undefined value. *)
Theorem C5_undefined_raises service_areas mun_names mun_stats provider_names
        provider_stats provider_coll_field provider_coll out i :
  column service_areas provider_coll_field = Return provider_coll ->
  nth_error provider_stats i = Some PyNone ->
  (i < List.length provider_coll)%nat ->
  processStats service_areas mun_names mun_stats provider_names provider_stats
               provider_coll_field out = (out, Raise TypeError).
Proof.
  intros Hc Hn Hi. unfold processStats.
  unfold bind at 1. unfold lift at 1. rewrite Hc.
  unfold bind at 1. unfold lift at 1.
  now rewrite (uncollected_undefined _ _ i Hn Hi).
Qed.

Lemma C5_undefined_raises_witness :
  processStats [("total_coll", [5; 7])]%string ["M"%string] [PyFloat 1]
               ["P"; "Q"]%string [PyFloat 9; PyNone] "total_coll" [] =
  ([], Raise TypeError).
Proof.
  apply (C5_undefined_raises _ _ _ _ _ _ [5; 7] [] 1%nat); [reflexivity|reflexivity|simpl; lia].
Defined.

(** The claim of C5 fails: with an undefined statistic the run does not
    complete, so there is no ranking in which the entry could be placed. *)
Lemma C5_counterexample :
  ~ exists out rankings,
      processStats [("total_coll", [5; 7])]%string ["M"%string] [PyFloat 1]
                   ["P"; "Q"]%string [PyFloat 9; PyNone] "total_coll" [] =
      (out, Return rankings).
Proof.
  intros (out & rankings & H). vm_compute in H. discriminate.
Qed.

(** ** The rankings *)

Lemma combine_fst_snd {A B} (l : list (A * B)) : combine (map fst l) (map snd l) = l.
Proof. induction l as [|[a b] l IH]; simpl; [reflexivity|now rewrite IH]. Qed.

Lemma NoDup_combine_keys {B} (names : list string) (xs : list B) :
  NoDup names -> NoDup (map fst (combine names xs)).
Proof.
  revert xs. induction names as [|n names IH]; intros xs Hnd; [constructor|].
  destruct xs as [|x xs]; [constructor|]. inversion Hnd; subst. simpl.
  constructor; [|now apply IH].
  intros Hin. apply in_map_iff in Hin. destruct Hin as ([n' x'] & <- & Hin).
  apply in_combine_l in Hin. contradiction.
Qed.

Lemma ranked_is_ranking pairs :
  NoDup (map fst pairs) -> is_ranking_of pairs (ranked (py_dict pairs)).
Proof.
  intros Hnd. rewrite py_dict_distinct by trivial.
  split; [apply ranked_perm|]. split; [apply ranked_descending|].
  intros v. apply ranked_stable.
Qed.

Lemma ranked_is_collapse pairs : is_collapse_of pairs (ranked (py_dict pairs)).
Proof.
  pose proof (ranked_perm (py_dict pairs)) as Hperm.
  split; [|split].
  - eapply Permutation_NoDup; [apply Permutation_map, Hperm|apply py_dict_NoDup].
  - intros n. rewrite <- (py_dict_keys pairs n). split; apply Permutation_in.
    + apply Permutation_map. now symmetry.
    + now apply Permutation_map.
  - intros before n x after -> Hlast.
    assert (get (rev (before ++ (n, x) :: after)) n = Some x) as Hget.
    { rewrite rev_app_distr. simpl. rewrite <- app_assoc, get_app.
      assert (get (rev after) n = None) as ->.
      { apply get_None. rewrite map_rev, <- in_rev. exact Hlast. }
      simpl. now rewrite String.eqb_refl. }
    split.
    + eapply Permutation_in; [exact Hperm|]. now apply py_dict_In.
    + intros y Hy. apply (Permutation_in _ (Permutation_sym Hperm)) in Hy.
      apply py_dict_In in Hy. congruence.
Qed.

(** C3.  With distinct names and finite values, each ranking returned lists
    its pairs by descending value, pairs of equal value in their input
    order; the pairs A 30, B 30, C 10 are ranked A, B, C. *)
Theorem C3_ranking_descending_stable service_areas provider_coll_field provider_coll
        (mun provider : list item) out :
  column service_areas provider_coll_field = Return provider_coll ->
  NoDup (map fst mun) -> NoDup (map fst provider) ->
  all_finite mun ->
  all_finite (combine (map fst provider) (deficits (map snd provider) provider_coll)) ->
  (exists mun_dict_sorted provider_dict_sorted,
      snd (processStats service_areas
                        (map fst mun) (map PyFloat (map snd mun))
                        (map fst provider) (map PyFloat (map snd provider))
                        provider_coll_field out) =
        Return (map wrap mun_dict_sorted, map wrap provider_dict_sorted) /\
      is_ranking_of mun mun_dict_sorted /\
      is_ranking_of (combine (map fst provider)
                             (deficits (map snd provider) provider_coll))
                    provider_dict_sorted) /\
  snd (processStats [("total_coll", [])]%string
                    ["A"; "B"; "C"]%string [PyFloat 30; PyFloat 30; PyFloat 10]
                    [] [] "total_coll" []) =
    Return ([("A", PyFloat 30); ("B", PyFloat 30); ("C", PyFloat 10)]%string, []).
Proof.
  intros Hc Hm Hp Hfm Hfp. split; [|reflexivity].
  eexists. eexists. rewrite processStats_numeric with (coll := provider_coll);
    trivial; [|now rewrite combine_fst_snd].
  split; [reflexivity|]. unfold mun_ranking, provider_ranking. split.
  - rewrite combine_fst_snd. now apply ranked_is_ranking.
  - apply ranked_is_ranking. now apply NoDup_combine_keys.
Qed.

(** C9.  Names may repeat: each ranking then holds one entry for each
    distinct name, with the value of the last pair of that name, and the
    run completes. *)
Theorem C9_duplicate_names_collapse service_areas provider_coll_field provider_coll
        mun_names mun_xs provider_names provider_xs out :
  column service_areas provider_coll_field = Return provider_coll ->
  all_finite (combine mun_names mun_xs) ->
  all_finite (combine provider_names (deficits provider_xs provider_coll)) ->
  exists mun_dict_sorted provider_dict_sorted,
    snd (processStats service_areas mun_names (map PyFloat mun_xs)
                      provider_names (map PyFloat provider_xs)
                      provider_coll_field out) =
      Return (map wrap mun_dict_sorted, map wrap provider_dict_sorted) /\
    is_collapse_of (combine mun_names mun_xs) mun_dict_sorted /\
    is_collapse_of (combine provider_names (deficits provider_xs provider_coll))
                   provider_dict_sorted.
Proof.
  intros Hc Hfm Hfp. eexists. eexists.
  rewrite processStats_numeric with (coll := provider_coll); trivial.
  split; [reflexivity|]. split; apply ranked_is_collapse.
Qed.

(** ** Rounding in binary64 *)

Local Open Scope Z_scope.

Lemma digits2_bounds m :
  2 ^ (Zpos (digits2_pos m) - 1) <= Zpos m < 2 ^ Zpos (digits2_pos m).
Proof.
  induction m as [m IH|m IH|]; simpl digits2_pos.
  - rewrite Pos2Z.inj_succ.
    replace (Z.succ (Zpos (digits2_pos m)) - 1) with (Z.succ (Zpos (digits2_pos m) - 1)) by lia.
    rewrite !Z.pow_succ_r by lia. lia.
  - rewrite Pos2Z.inj_succ.
    replace (Z.succ (Zpos (digits2_pos m)) - 1) with (Z.succ (Zpos (digits2_pos m) - 1)) by lia.
    rewrite !Z.pow_succ_r by lia. lia.
  - simpl. lia.
Qed.

Lemma shr_1_m mrs : 0 <= shr_m mrs -> shr_m (shr_1 mrs) = Z.div2 (shr_m mrs).
Proof.
  destruct mrs as [m r s]. simpl. destruct m as [|[p|p|]|p]; simpl; try reflexivity; lia.
Qed.

Lemma iter_shr_1_m p mrs :
  0 <= shr_m mrs -> shr_m (iter_pos shr_1 p mrs) = Z.shiftr (shr_m mrs) (Zpos p).
Proof.
  revert mrs. induction p as [p IH|p IH|]; intros mrs Hm; simpl iter_pos.
  - assert (0 <= shr_m (shr_1 mrs)) as H1 by (rewrite shr_1_m, Z.div2_spec by trivial; now apply Z.shiftr_nonneg).
    assert (0 <= shr_m (iter_pos shr_1 p (shr_1 mrs))) as H2 by (rewrite IH by trivial; now apply Z.shiftr_nonneg).
    rewrite IH, IH, shr_1_m, Z.div2_spec, !Z.shiftr_shiftr by (trivial; lia).
    f_equal. lia.
  - assert (0 <= shr_m (iter_pos shr_1 p mrs)) as H2 by (rewrite IH by trivial; now apply Z.shiftr_nonneg).
    rewrite IH, IH, !Z.shiftr_shiftr by (trivial; lia). f_equal. lia.
  - rewrite shr_1_m, Z.div2_spec by trivial. reflexivity.
Qed.

Lemma fexp_val z : SpecFloat.fexp prec emax z = Z.max (z - 53) (-1074).
Proof. reflexivity. Qed.

Lemma shiftr_pos m n : 0 <= n -> 2 ^ n <= m -> 0 < Z.shiftr m n.
Proof.
  intros Hn Hm. rewrite Z.shiftr_div_pow2 by trivial.
  apply Z.div_str_pos. split; [apply Z.pow_pos_nonneg; lia|trivial].
Qed.

Lemma shr_fexp_pos m e l :
  -1074 <= e ->
  0 < shr_m (fst (shr_fexp prec emax (Zpos m) e l)) /\
  -1074 <= snd (shr_fexp prec emax (Zpos m) e l).
Proof.
  intros He. unfold shr_fexp, shr. rewrite fexp_val. unfold Zdigits2.
  pose proof (digits2_bounds m) as [Hlo Hhi].
  set (d := Zpos (digits2_pos m)) in *.
  assert (shr_m (shr_record_of_loc (Zpos m) l) = Zpos m) as Hm
      by (destruct l as [|[]]; reflexivity).
  destruct (Z.max (d + e - 53) (-1074) - e) as [|p|p] eqn:En; simpl fst; simpl snd.
  - rewrite Hm. lia.
  - rewrite iter_shr_1_m by (rewrite Hm; lia). rewrite Hm. split; [|lia].
    apply shiftr_pos; [lia|].
    apply Z.le_trans with (2 ^ (d - 1)); [|trivial].
    apply Z.pow_le_mono_r; lia.
  - rewrite Hm. lia.
Qed.

Lemma round_nearest_even_pos m l : 0 < m -> 0 < round_nearest_even m l.
Proof.
  intros Hm. unfold round_nearest_even.
  destruct l as [|[]]; try lia. destruct (Z.even m); lia.
Qed.

Lemma binary_round_aux_nonzero s m e l :
  -1074 <= e -> signed_nonzero s (binary_round_aux prec emax s (Zpos m) e l).
Proof.
  intros He. unfold binary_round_aux.
  pose proof (shr_fexp_pos m e l He) as [Hm1 He1].
  destruct (shr_fexp prec emax (Zpos m) e l) as [mrs1 e1]. simpl in Hm1, He1.
  pose proof (round_nearest_even_pos (shr_m mrs1) (loc_of_shr_record mrs1) Hm1) as Hr.
  destruct (round_nearest_even (shr_m mrs1) (loc_of_shr_record mrs1)) as [|m2|m2];
    try lia.
  pose proof (shr_fexp_pos m2 e1 loc_Exact He1) as [Hm2 He2].
  destruct (shr_fexp prec emax (Zpos m2) e1 loc_Exact) as [mrs2 e2]. simpl in Hm2, He2.
  destruct (shr_m mrs2) as [|m3|m3]; try lia.
  destruct (e2 <=? emax - prec); [left; eauto|now right].
Qed.

Lemma binary_round_nonzero s m e :
  -1074 <= e -> signed_nonzero s (binary_round prec emax s m e).
Proof.
  intros He. unfold binary_round, shl_align. rewrite fexp_val.
  destruct (Z.max (Zpos (digits2_pos m) + e - 53) (-1074) - e) eqn:En;
    apply binary_round_aux_nonzero; lia.
Qed.

Lemma valid_finite s m e :
  valid_binary (S754_finite s m e) = true ->
  Z.max (Zpos (digits2_pos m) + e - 53) (-1074) = e /\ e <= 971.
Proof.
  simpl. unfold bounded, canonical_mantissa. rewrite fexp_val.
  intros H. apply andb_true_iff in H. destruct H as [H1 H2].
  apply Z.eqb_eq in H1. apply Z.leb_le in H2. split; [exact H1|exact H2].
Qed.

Lemma shl_align_value m e e' :
  e' <= e -> Zpos (fst (shl_align m e e')) = Zpos m * 2 ^ (e - e').
Proof.
  intros He. unfold shl_align.
  destruct (e' - e) as [|p|p] eqn:E; simpl fst; try lia.
  - replace (e - e') with 0 by lia. lia.
  - replace (e - e') with (Zpos p) by lia.
    change (Pos.iter xO m p) with (shift_pos p m).
    rewrite shift_pos_correct, Z.pow_pos_fold. lia.
Qed.

Lemma signed_nonzero_neg x : signed_nonzero true x -> is_neg x = true.
Proof. intros [(m & e & ->)| ->]; reflexivity. Qed.

Lemma SFltb_zero x : SFltb x (S754_zero false) = is_neg x.
Proof. destruct x as [s|[]| |[] m e]; reflexivity. Qed.

(** Among valid numbers of one sign, the order of (exponent, mantissa) is
    the order of the magnitudes brought to a common exponent. *)
Lemma aligned_lt mx ex my ey s s' :
  valid_binary (S754_finite s mx ex) = true ->
  valid_binary (S754_finite s' my ey) = true ->
  ex < ey \/ (ex = ey /\ Zpos mx < Zpos my) ->
  Zpos mx * 2 ^ (ex - Z.min ex ey) < Zpos my * 2 ^ (ey - Z.min ex ey).
Proof.
  intros Hx Hy Hlt. apply valid_finite in Hx, Hy.
  destruct Hx as [Hx _], Hy as [Hy _].
  destruct Hlt as [Hlt|[-> Hlt]].
  - rewrite Z.min_l by lia. rewrite Z.sub_diag, Z.pow_0_r, Z.mul_1_r.
    pose proof (digits2_bounds mx) as [_ Hmx].
    pose proof (digits2_bounds my) as [Hmy _].
    assert (Zpos (digits2_pos mx) <= 53) by lia.
    assert (Zpos (digits2_pos my) = 53) as Hd by lia.
    rewrite Hd in Hmy.
    assert (Zpos mx < 2 ^ 53).
    { apply Z.lt_le_trans with (1 := Hmx). apply Z.pow_le_mono_r; lia. }
    assert (2 ^ 1 <= 2 ^ (ey - ex)) by (apply Z.pow_le_mono_r; lia).
    change (2 ^ 53) with (2 ^ 52 * 2 ^ 1) in *. change (53 - 1) with 52 in Hmy.
    nia.
  - rewrite Z.min_id, Z.sub_diag, Z.pow_0_r. lia.
Qed.

Lemma SFsub_neg x y :
  valid_binary x = true -> valid_binary y = true ->
  SFltb x y = true -> is_neg (SF64sub x y) = true.
Proof.
  intros Hx Hy Hlt. apply SFltb_lex in Hlt.
  destruct Hlt as (a & b & Ha & Hb & Hlt).
  destruct x as [sx|sx| |sx mx ex], y as [sy|sy| |sy my ey];
    try discriminate; simpl in Ha, Hb;
    try destruct sx; try destruct sy;
    inversion Ha; inversion Hb; subst; simpl in Hlt; try lia; try reflexivity.
  all: unfold SF64sub, SFsub, binary_normalize, cond_Zopp.
  all: pose proof (proj1 (valid_finite _ _ _ Hx)) as Hex;
    pose proof (proj1 (valid_finite _ _ _ Hy)) as Hey;
    pose proof (shl_align_value mx ex (Z.min ex ey) ltac:(lia)) as Hmx;
    pose proof (shl_align_value my ey (Z.min ex ey) ltac:(lia)) as Hmy.
  - (* both negative *)
    pose proof (aligned_lt my ey mx ex _ _ Hy Hx ltac:(lia)) as H.
    rewrite (Z.min_comm ey ex) in H.
    destruct (- Zpos (fst (shl_align mx ex (Z.min ex ey))) -
              - Zpos (fst (shl_align my ey (Z.min ex ey)))) eqn:E; try lia.
    apply signed_nonzero_neg, binary_round_nonzero. lia.
  - (* negative below positive *)
    destruct (- Zpos (fst (shl_align mx ex (Z.min ex ey))) -
              Zpos (fst (shl_align my ey (Z.min ex ey)))) eqn:E; try lia.
    apply signed_nonzero_neg, binary_round_nonzero. lia.
  - (* both positive *)
    pose proof (aligned_lt mx ex my ey _ _ Hx Hy ltac:(lia)) as H.
    destruct (Zpos (fst (shl_align mx ex (Z.min ex ey))) -
              Zpos (fst (shl_align my ey (Z.min ex ey)))) eqn:E; try lia.
    apply signed_nonzero_neg, binary_round_nonzero. lia.
Qed.

(** A statistic below the reported total leaves a deficit below zero. *)
Lemma sub_neg (g r : float) : (g <? r)%float = true -> (g - r <? 0)%float = true.
Proof.
  intros H. rewrite ltb_spec in *. rewrite sub_spec.
  change (Prim2SF 0%float) with (S754_zero false). rewrite SFltb_zero.
  apply SFsub_neg; trivial; apply Prim2SF_valid.
Qed.

Local Close Scope Z_scope.

(** ** Deficits below zero *)

Lemma nth_error_combine {A B} (l : list A) (l' : list B) i a b :
  nth_error l i = Some a -> nth_error l' i = Some b ->
  nth_error (combine l l') i = Some (a, b).
Proof.
  revert l' i. induction l as [|a0 l IH]; intros [|b0 l'] [|i] Ha Hb;
    simpl in *; try discriminate.
  - congruence.
  - now apply IH.
Qed.

Lemma nth_error_deficits xs coll i g r :
  nth_error xs i = Some g -> nth_error coll i = Some r ->
  nth_error (deficits xs coll) i = Some (g - r).
Proof.
  intros Hg Hr. unfold deficits.
  rewrite nth_error_map, (nth_error_combine _ _ _ _ _ Hg Hr). reflexivity.
Qed.

(** C7.  A service area whose reported total exceeds its statistic has a
    deficit below zero, and the ranking returned holds that deficit for it
    as computed, not zero: 100 against 120 is ranked, and printed, as -20. *)
Theorem C7_negative_deficit_kept service_areas provider_coll_field provider_coll
        mun_names mun_xs provider_names provider_xs out i name g r :
  column service_areas provider_coll_field = Return provider_coll ->
  all_finite (combine mun_names mun_xs) ->
  all_finite (combine provider_names (deficits provider_xs provider_coll)) ->
  NoDup provider_names ->
  nth_error provider_names i = Some name ->
  nth_error provider_xs i = Some g ->
  nth_error provider_coll i = Some r ->
  (g <? r) = true ->
  (g - r <? 0) = true /\
  (exists mun_dict_sorted provider_dict_sorted,
      processStats service_areas mun_names (map PyFloat mun_xs)
                   provider_names (map PyFloat provider_xs)
                   provider_coll_field out =
        (out ++ [header1] ++ map line mun_dict_sorted
             ++ [header2] ++ map line provider_dict_sorted,
         Return (map wrap mun_dict_sorted, map wrap provider_dict_sorted)) /\
      In (name, g - r) provider_dict_sorted /\
      forall x, In (name, x) provider_dict_sorted -> x = g - r) /\
  processStats [("total_coll", [120])]%string [] []
               ["P"%string] [PyFloat 100] "total_coll" [] =
    ([header1; header2; "P : -20 tonnes"%string],
     Return ([], [("P"%string, PyFloat (-20))])).
Proof.
  intros Hc Hfm Hfp Hnd Hname Hg Hr Hlt.
  split; [now apply sub_neg|]. split; [|reflexivity].
  eexists. eexists.
  split; [apply (processStats_numeric _ _ provider_coll); trivial|].
  unfold provider_ranking.
  set (pairs := combine provider_names (deficits provider_xs provider_coll)).
  assert (NoDup (map fst pairs)) as Hkeys by now apply NoDup_combine_keys.
  assert (In (name, g - r) pairs) as Hin.
  { apply nth_error_In with i. apply nth_error_combine; trivial.
    now apply nth_error_deficits. }
  rewrite py_dict_distinct by trivial. split.
  - eapply Permutation_in; [apply ranked_perm|exact Hin].
  - intros x Hx. apply (Permutation_in _ (Permutation_sym (ranked_perm pairs))) in Hx.
    apply (In_get _ _ _ Hkeys) in Hx. apply (In_get _ _ _ Hkeys) in Hin. congruence.
Qed.

(** ** Doubling in binary64 *)

Local Open Scope Z_scope.

Lemma Zdigits2_nonneg m : 0 <= Zdigits2 m.
Proof. destruct m; simpl; lia. Qed.

Lemma same_shift_above m e : -1074 <= e -> same_shift m e.
Proof.
  intros He. unfold same_shift. rewrite fexp_val.
  pose proof (Zdigits2_nonneg m). lia.
Qed.

Lemma shr_fexp_scale m e l :
  same_shift m e ->
  shr_fexp prec emax m (e + 1) l =
  (fst (shr_fexp prec emax m e l), snd (shr_fexp prec emax m e l) + 1).
Proof.
  unfold same_shift, shr_fexp, shr. rewrite !fexp_val. intros Hs.
  destruct (Z.max (Zdigits2 m + e - 53) (-1074) - e) as [|p|p] eqn:E;
    destruct (Z.max (Zdigits2 m + (e + 1) - 53) (-1074) - (e + 1)) as [|q|q] eqn:E';
    simpl fst; simpl snd; try reflexivity; try lia.
  assert (p = q) as -> by lia. f_equal. lia.
Qed.

(** In the normal range, rounding commutes with doubling. *)
Lemma binary_round_aux_scale s m e l :
  same_shift m e ->
  binary_round_aux prec emax s m (e + 1) l =
  SFdouble (binary_round_aux prec emax s m e l).
Proof.
  intros Hs. unfold binary_round_aux. rewrite shr_fexp_scale by trivial.
  assert (-1074 <= snd (shr_fexp prec emax m e l)) as He1.
  { revert Hs. unfold same_shift, shr_fexp, shr. rewrite !fexp_val.
    pose proof (Zdigits2_nonneg m).
    destruct (Z.max (Zdigits2 m + e - 53) (-1074) - e) as [|p|p] eqn:E;
      simpl snd; lia. }
  destruct (shr_fexp prec emax m e l) as [mrs1 e1]. simpl fst. simpl snd in *.
  rewrite shr_fexp_scale by now apply same_shift_above.
  destruct (shr_fexp prec emax (round_nearest_even (shr_m mrs1)
                                  (loc_of_shr_record mrs1)) e1 loc_Exact)
    as [mrs2 e2]. simpl fst. simpl snd.
  destruct (shr_m mrs2) as [|m3|m3]; try reflexivity.
  change (emax - prec) with 971. unfold SFdouble.
  destruct (e2 <=? 971) eqn:E2; destruct (e2 + 1 <=? 971) eqn:E3;
    try reflexivity; lia.
Qed.

Lemma round_nearest_even_le m l : 0 <= m -> 0 <= round_nearest_even m l <= m + 1.
Proof.
  intros Hm. unfold round_nearest_even.
  destruct l as [|[]]; try lia. destruct (Z.even m); lia.
Qed.

Lemma Zdigits2_le m k : 0 <= k -> 0 <= m <= 2 ^ k -> Zdigits2 m <= k + 1.
Proof.
  intros Hk Hm. destruct m as [|q|q]; simpl; try lia.
  pose proof (digits2_bounds q) as [Hlo _].
  destruct (Z_le_gt_dec (Zpos (digits2_pos q)) (k + 1)) as [|Hgt]; trivial.
  assert (2 ^ (k + 1) <= 2 ^ (Zpos (digits2_pos q) - 1))
    by (apply Z.pow_le_mono_r; lia).
  rewrite Z.pow_add_r in H by lia. lia.
Qed.

(** A result above the least exponent was rounded in the normal range. *)
Lemma binary_round_aux_normal s m e l s' m' e' :
  binary_round_aux prec emax s (Zpos m) e l = S754_finite s' m' e' ->
  -1074 < e' -> same_shift (Zpos m) e.
Proof.
  intros Hr He'. unfold same_shift. rewrite fexp_val.
  destruct (Z_le_gt_dec (-1074) (Zdigits2 (Zpos m) + e - 53)) as [|Hsub]; [now left|].
  destruct (Z_le_gt_dec (Z.max (Zdigits2 (Zpos m) + e - 53) (-1074)) e) as [|Hshift];
    [now right|].
  exfalso. revert Hr. unfold binary_round_aux. unfold shr_fexp at 1. unfold shr at 1. rewrite fexp_val.
  simpl Zdigits2 in *. pose proof (digits2_bounds m) as [_ Hhi].
  set (d := Zpos (digits2_pos m)) in *.
  assert (shr_m (shr_record_of_loc (Zpos m) l) = Zpos m) as Hm
      by (destruct l as [|[]]; reflexivity).
  destruct (Z.max (d + e - 53) (-1074) - e) as [|p|p] eqn:En; try lia.
  set (mrs1 := iter_pos shr_1 p (shr_record_of_loc (Zpos m) l)).
  assert (0 <= shr_m mrs1 < 2 ^ 52) as Hm1.
  { unfold mrs1. rewrite iter_shr_1_m by (rewrite Hm; lia). rewrite Hm.
    rewrite Z.shiftr_div_pow2 by lia. split; [apply Z.div_pos; lia|].
    apply Z.div_lt_upper_bound; [lia|].
    rewrite <- Z.pow_add_r by lia.
    apply Z.lt_le_trans with (1 := Hhi). apply Z.pow_le_mono_r; lia. }
  pose proof (round_nearest_even_le (shr_m mrs1) (loc_of_shr_record mrs1)
                                    (proj1 Hm1)) as Hr2.
  set (m2 := round_nearest_even (shr_m mrs1) (loc_of_shr_record mrs1)) in *.
  assert (Zdigits2 m2 <= 53) as Hd2 by (apply (Zdigits2_le m2 52); lia).
  pose proof (Zdigits2_nonneg m2) as Hd2'.
  unfold shr_fexp, shr. rewrite fexp_val.
  replace (e + Zpos p) with (-1074) by lia.
  replace (Z.max (Zdigits2 m2 + -1074 - 53) (-1074) - -1074) with 0 by lia.
  assert (shr_m (shr_record_of_loc m2 loc_Exact) = m2) as -> by reflexivity.
  destruct m2 as [|q|q]; try discriminate.
  destruct (-1074 <=? emax - prec); [|discriminate].
  intros [= _ _ <-]. lia.
Qed.

Lemma shift_pos_xI p m : shift_pos p~1 m = xO (shift_pos p (shift_pos p m)).
Proof. reflexivity. Qed.

Lemma shift_pos_xO p m : shift_pos p~0 m = shift_pos p (shift_pos p m).
Proof. reflexivity. Qed.

(** Shifting back what was shifted in loses nothing. *)
Lemma iter_shr_1_exact p m :
  iter_pos shr_1 p (Build_shr_record (Zpos (shift_pos p m)) false false) =
  Build_shr_record (Zpos m) false false.
Proof.
  revert m. induction p as [p IH|p IH|]; intros m.
  - rewrite shift_pos_xI. simpl iter_pos. simpl shr_1. now rewrite !IH.
  - rewrite shift_pos_xO. simpl iter_pos. now rewrite !IH.
  - reflexivity.
Qed.

Lemma digits2_shift_pos p m :
  Zpos (digits2_pos (shift_pos p m)) = Zpos p + Zpos (digits2_pos m).
Proof.
  revert m. induction p as [p IH|p IH|]; intros m.
  - rewrite shift_pos_xI. simpl digits2_pos.
    rewrite Pos2Z.inj_succ, !IH, (Pos2Z.inj_xI p). lia.
  - rewrite shift_pos_xO, !IH, (Pos2Z.inj_xO p). lia.
  - change (shift_pos 1 m) with (xO m). simpl digits2_pos.
    rewrite Pos2Z.inj_succ. lia.
Qed.

Lemma mul_2_52 m : (4503599627370496 * m)%positive = shift_pos 52 m.
Proof.
  apply Pos2Z.inj. rewrite shift_pos_correct, Pos2Z.inj_mul. reflexivity.
Qed.

(** A valid number above the least exponent has a full mantissa. *)
Lemma valid_normal s m e :
  valid_binary (S754_finite s m e) = true -> -1074 < e ->
  Zpos (digits2_pos m) = 53.
Proof. intros H He. apply valid_finite in H. lia. Qed.

Lemma SFmul_two_normal s m e :
  valid_binary (S754_finite s m e) = true -> -1074 < e ->
  SF64mul two_sf (S754_finite s m e) = SFdouble (S754_finite s m e).
Proof.
  intros Hv He. pose proof (valid_normal s m e Hv He) as Hd.
  unfold SF64mul, SFmul, two_sf. simpl xorb. rewrite mul_2_52.
  unfold binary_round_aux. unfold shr_fexp at 1. rewrite fexp_val.
  unfold Zdigits2. rewrite digits2_shift_pos, Hd.
  replace (Z.max (52 + 53 + (-51 + e) - 53) (-1074) - (-51 + e)) with 52 by lia.
  unfold shr at 1. unfold shr_record_of_loc at 1 2. rewrite iter_shr_1_exact.
  simpl shr_m. simpl loc_of_shr_record. simpl round_nearest_even.
  unfold shr_fexp, shr. rewrite fexp_val. unfold Zdigits2. rewrite Hd.
  replace (Z.max (53 + (-51 + e + 52) - 53) (-1074) - (-51 + e + 52)) with 0 by lia.
  simpl shr_m. change (emax - prec) with 971.
  replace (-51 + e + 52) with (e + 1) by lia. reflexivity.
Qed.

(** Doubling one factor doubles a product that is above the least exponent. *)
Lemma SFmul_double_r sx mx ex sy my ey s m e :
  SF64mul (S754_finite sx mx ex) (S754_finite sy my ey) = S754_finite s m e ->
  -1074 < e ->
  SF64mul (S754_finite sx mx ex) (S754_finite sy my (ey + 1)) =
  SFdouble (S754_finite s m e).
Proof.
  unfold SF64mul, SFmul. intros H He. rewrite Z.add_assoc.
  rewrite binary_round_aux_scale; [now rewrite H|].
  eapply binary_round_aux_normal; eauto.
Qed.

Lemma SFmul_double_l sx mx ex sy my ey s m e :
  SF64mul (S754_finite sx mx ex) (S754_finite sy my ey) = S754_finite s m e ->
  -1074 < e ->
  SF64mul (S754_finite sx mx (ex + 1)) (S754_finite sy my ey) =
  SFdouble (S754_finite s m e).
Proof.
  unfold SF64mul, SFmul. intros H He.
  replace (ex + 1 + ey) with (ex + ey + 1) by lia.
  rewrite binary_round_aux_scale; [now rewrite H|].
  eapply binary_round_aux_normal; eauto.
Qed.

(** The same for a quotient of two full mantissas. *)
Lemma SFdiv_double_l sx mx ex sy my ey s m e :
  Zpos (digits2_pos mx) = 53 -> Zpos (digits2_pos my) = 53 ->
  -1074 <= ex - ey - 53 ->
  SF64div (S754_finite sx mx ex) (S754_finite sy my ey) = S754_finite s m e ->
  -1074 < e ->
  SF64div (S754_finite sx mx (ex + 1)) (S754_finite sy my ey) =
  SFdouble (S754_finite s m e).
Proof.
  intros Hdx Hdy Hrange. unfold SF64div, SFdiv, SFdiv_core_binary.
  rewrite !fexp_val. unfold Zdigits2. rewrite Hdx, Hdy.
  replace (Z.min (Z.max (53 + (ex + 1) - (53 + ey) - 53) (-1074)) (ex + 1 - ey))
    with (ex - ey - 53 + 1) by lia.
  replace (Z.min (Z.max (53 + ex - (53 + ey) - 53) (-1074)) (ex - ey))
    with (ex - ey - 53) by lia.
  replace (ex + 1 - ey - (ex - ey - 53 + 1)) with 53 by lia.
  replace (ex - ey - (ex - ey - 53)) with 53 by lia.
  destruct (Z.div_eucl (Z.shiftl (Zpos mx) 53) (Zpos my)) as [q r] eqn:Eq.
  assert (0 < q) as Hq.
  { pose proof (Z_div_mod (Z.shiftl (Zpos mx) 53) (Zpos my) ltac:(lia)) as Hdm.
    rewrite Eq in Hdm. destruct Hdm as [Hdm Hr].
    pose proof (digits2_bounds mx) as [Hlo _]. pose proof (digits2_bounds my) as [_ Hhi].
    rewrite Hdx in Hlo. rewrite Hdy in Hhi. rewrite Z.shiftl_mul_pow2 in Hdm by lia.
    change (2 ^ (53 - 1)) with (2 ^ 52) in Hlo.
    assert (2 ^ 52 * 2 ^ 53 <= Zpos mx * 2 ^ 53) by (apply Z.mul_le_mono_nonneg_r; lia).
    nia. }
  destruct q as [|q|q]; try lia.
  intros H He. rewrite binary_round_aux_scale; [now rewrite H|].
  eapply binary_round_aux_normal; eauto.
Qed.

Local Close Scope Z_scope.

Lemma in_range_spec x :
  in_range x = true ->
  exists s m e, Prim2SF x = S754_finite s m e /\ (-1052 <= e)%Z.
Proof.
  unfold in_range, is_finite. rewrite leb_spec, abs_spec.
  change (Prim2SF tiny) with (S754_finite false 4503599627370496 (-1052)).
  intros H. apply andb_true_iff in H. destruct H as [Hf Hl].
  destruct (Prim2SF x) as [s|s| |s m e]; try discriminate.
  exists s, m, e. split; [reflexivity|].
  unfold SFleb, SFcompare, SFabs in Hl.
  destruct (Z.compare_spec (-1052) e); try lia.
Qed.

(** Twice a number in range. *)
Lemma double_in_range x s m e :
  Prim2SF x = S754_finite s m e -> (-1074 < e)%Z ->
  Prim2SF (2 * x) = SFdouble (S754_finite s m e).
Proof.
  intros Hx He. rewrite mul_spec, Hx. change (Prim2SF 2) with two_sf.
  apply SFmul_two_normal; trivial. rewrite <- Hx. apply Prim2SF_valid.
Qed.

(** Doubling the rate doubles the mass of a cell whose steps stay in range. *)
Lemma mass_double_in_range p r :
  in_range r = true -> (p <? 0) = false -> scales p r = true ->
  mass p (2 * r) = 2 * mass p r.
Proof.
  intros Hr Hp Hs. unfold mass. rewrite Hp. unfold scales in Hs.
  apply andb_prop in Hs. destruct Hs as [Hs Hb2].
  apply andb_prop in Hs. destruct Hs as [Hs Ha2].
  apply andb_prop in Hs. destruct Hs as [Hs Hc].
  apply andb_prop in Hs. destruct Hs as [Ha Hb].
  apply in_range_spec in Hr, Ha, Hb, Hc.
  destruct Hr as (sr & mr & er & Hr & Her'), Ha as (sa & ma & ea & Ha & Hea'),
      Hb as (sb & mb & eb & Hb & Heb'), Hc as (sc & mc & ec & Hc & Hec').
  assert (-1074 < er /\ -1074 < ea /\ -1074 < eb /\ -1074 < ec)%Z
    as (Her & Hea & Heb & Hec) by lia.
  pose proof (double_in_range r _ _ _ Hr Her) as H2r.
  (* the population is finite and not zero *)
  assert (exists sp mp ep, Prim2SF p = S754_finite sp mp ep) as (sp & mp & ep & Hpf).
  { pose proof Ha as Ha'. rewrite mul_spec, Hr in Ha'.
    destruct (Prim2SF p) as [s|s| |s m e]; try discriminate; eauto. }
  (* the doubled rate *)
  assert (Prim2SF (2 * r) = S754_finite sr mr (er + 1)) as H2r'.
  { rewrite H2r. unfold SFdouble. destruct (er + 1 <=? 971)%Z eqn:E; [reflexivity|].
    exfalso. unfold is_finite in Ha2. rewrite mul_spec, H2r, Hpf in Ha2.
    unfold SFdouble in Ha2. rewrite E in Ha2. discriminate. }
  (* first product *)
  assert (Prim2SF (p * (2 * r)) = S754_finite sa ma (ea + 1)) as Ha2'.
  { pose proof Ha as Ha'. rewrite mul_spec, Hpf, Hr in Ha'.
    pose proof (SFmul_double_r _ _ _ _ _ _ _ _ _ Ha' Hea) as Hd.
    unfold is_finite in Ha2. rewrite mul_spec, Hpf, H2r', Hd in Ha2.
    rewrite mul_spec, Hpf, H2r', Hd. unfold SFdouble in *.
    destruct (ea + 1 <=? 971)%Z; [reflexivity|discriminate]. }
  (* second product *)
  assert (Prim2SF (p * (2 * r) * 7) = S754_finite sb mb (eb + 1)) as Hb2'.
  { pose proof Hb as Hb'. rewrite mul_spec, Ha in Hb'.
    change (Prim2SF 7) with (S754_finite false 7881299347898368 (-50)) in Hb'.
    pose proof (SFmul_double_l _ _ _ _ _ _ _ _ _ Hb' Heb) as Hd.
    unfold is_finite in Hb2. rewrite mul_spec, Ha2' in Hb2.
    change (Prim2SF 7) with (S754_finite false 7881299347898368 (-50)) in Hb2.
    rewrite Hd in Hb2. rewrite mul_spec, Ha2'.
    change (Prim2SF 7) with (S754_finite false 7881299347898368 (-50)).
    rewrite Hd. unfold SFdouble in *.
    destruct (eb + 1 <=? 971)%Z; [reflexivity|discriminate]. }
  (* the quotient *)
  apply Prim2SF_inj. rewrite (double_in_range _ _ _ _ Hc Hec).
  pose proof Hc as Hc'. rewrite div_spec, Hb in Hc'.
  change (Prim2SF 1000) with (S754_finite false 8796093022208000 (-43)) in Hc'.
  rewrite div_spec, Hb2'.
  change (Prim2SF 1000) with (S754_finite false 8796093022208000 (-43)).
  apply SFdiv_double_l; trivial; try lia.
  apply (valid_normal sb mb eb); [rewrite <- Hb; apply Prim2SF_valid|trivial].
Qed.

Lemma eqb_zero_spec p : (p =? 0) = true -> exists s, Prim2SF p = S754_zero s.
Proof.
  rewrite eqb_spec. change (Prim2SF 0) with (S754_zero false).
  destruct (Prim2SF p) as [s|[]| |[] m e]; try discriminate. eauto.
Qed.

Lemma in_range_double_finite r :
  in_range r = true -> is_finite (2 * r) = true ->
  exists s m e, Prim2SF r = S754_finite s m e /\ (-1052 <= e)%Z /\
                Prim2SF (2 * r) = S754_finite s m (e + 1).
Proof.
  intros Hr H2. apply in_range_spec in Hr. destruct Hr as (s & m & e & Hr & He).
  exists s, m, e. split; [trivial|]. split; [trivial|].
  unfold is_finite in H2. rewrite (double_in_range r s m e Hr) in * by lia.
  unfold SFdouble in *. destruct (e + 1 <=? 971)%Z; [reflexivity|discriminate].
Qed.

Lemma mass_double_zero p r :
  in_range r = true -> is_finite (2 * r) = true -> (p =? 0) = true ->
  mass p (2 * r) = 2 * mass p r.
Proof.
  intros Hr H2 Hp. destruct (eqb_zero_spec p Hp) as (s & Hz).
  destruct (in_range_double_finite r Hr H2) as (sr & mr & er & Hr' & _ & H2').
  unfold mass. assert ((p <? 0) = false) as ->.
  { rewrite ltb_spec, Hz. now destruct s. }
  apply Prim2SF_inj. set (r2 := 2 * r) in *.
  rewrite !mul_spec, !div_spec, !mul_spec, Hz, Hr', H2'. reflexivity.
Qed.

Lemma mass_double_nodata p r :
  (p <? 0) = true \/ is_nan p = true -> mass p (2 * r) = 2 * mass p r.
Proof.
  unfold mass. intros [Hp|Hp].
  - rewrite Hp. reflexivity.
  - apply nan_unique in Hp. subst p. rewrite ltb_nan_l.
    now rewrite !mul_nan_l, div_nan_l.
Qed.

Lemma mass_double p r :
  in_range r = true -> is_finite (2 * r) = true -> doubles p r = true ->
  mass p (2 * r) = 2 * mass p r.
Proof.
  intros Hr H2 Hd. unfold doubles in Hd.
  destruct (p <? 0) eqn:Hneg; [apply mass_double_nodata; now left|].
  destruct (is_nan p) eqn:Hnan; [apply mass_double_nodata; now right|].
  destruct (p =? 0) eqn:Hz; [now apply mass_double_zero|].
  simpl in Hd. now apply mass_double_in_range.
Qed.

Lemma doubling_ok_spec x :
  doubling_ok x = true ->
  (exists s, Prim2SF x = S754_zero s /\ Prim2SF (2 * x) = S754_zero s) \/
  (exists s m e, Prim2SF x = S754_finite s m e /\
                 Prim2SF (2 * x) = S754_finite s m (e + 1)).
Proof.
  unfold doubling_ok. intros H. apply andb_prop in H. destruct H as [H H2].
  apply orb_prop in H. destruct H as [H|H].
  - left. destruct (eqb_zero_spec x H) as (s & Hz). exists s. split; [trivial|].
    rewrite mul_spec, Hz. reflexivity.
  - right. destruct (in_range_double_finite x H H2) as (s & m & e & Hx & _ & Hd).
    eauto.
Qed.

Lemma double_ltb x y :
  doubling_ok x = true -> doubling_ok y = true -> (2 * x <? 2 * y) = (x <? y).
Proof.
  intros Hx Hy. apply doubling_ok_spec in Hx, Hy. rewrite !ltb_spec.
  destruct Hx as [(sx & -> & ->)|(sx & mx & ex & -> & ->)],
           Hy as [(sy & -> & ->)|(sy & my & ey & -> & ->)]; try reflexivity.
  unfold SFltb, SFcompare.
  now rewrite (Z.add_comm ex 1), (Z.add_comm ey 1), Z.add_compare_mono_l.
Qed.

Lemma insort_num_dbl x run :
  all_doubling_ok (x :: run) ->
  insort_num (dbl x) (map dbl run) = map dbl (insort_num x run).
Proof.
  unfold all_doubling_ok. intros H. inversion H as [|? ? Hx Hrun]; subst. clear H.
  induction Hrun as [|y run Hy Hrun IH]; simpl; [reflexivity|].
  rewrite double_ltb by trivial.
  destruct (snd x <? snd y); simpl; [reflexivity|]. now rewrite IH.
Qed.

Lemma sort_forward_num_dbl todo run :
  all_doubling_ok (todo ++ run) ->
  sort_forward_num (map dbl todo) (map dbl run) =
  map dbl (sort_forward_num todo run).
Proof.
  unfold all_doubling_ok. revert run.
  induction todo as [|x todo IH]; intros run H; simpl; [reflexivity|].
  simpl in H. inversion H as [|? ? Hx Hrest]; subst.
  apply Forall_app in Hrest. destruct Hrest as [Htodo Hrun].
  rewrite insort_num_dbl by (constructor; trivial).
  apply IH. apply Forall_app. split; [trivial|].
  eapply Permutation_Forall; [apply insort_num_perm|]. now constructor.
Qed.

Lemma ranked_dbl l : all_doubling_ok l -> ranked (map dbl l) = map dbl (ranked l).
Proof.
  intros H. unfold ranked. rewrite <- map_rev.
  change (@nil item) with (map dbl []).
  rewrite sort_forward_num_dbl, map_rev; [reflexivity|].
  rewrite app_nil_r. now apply Forall_rev.
Qed.

Lemma combine_dbl (names : list string) (xs : list float) :
  combine names (map (fun x => 2 * x) xs) = map dbl (combine names xs).
Proof.
  revert xs. induction names as [|n names IH]; intros [|x xs]; simpl; trivial.
  now rewrite IH.
Qed.

(** Doubling every value leaves the order of the names of a ranking. *)
Lemma mun_ranking_dbl names xs :
  all_doubling_ok (combine names xs) ->
  mun_ranking names (map (fun x => 2 * x) xs) = map dbl (mun_ranking names xs).
Proof.
  intros H. unfold mun_ranking. rewrite combine_dbl.
  rewrite (py_dict_map (fun x => 2 * x) (combine names xs) : py_dict (map dbl _) = map dbl _).
  apply ranked_dbl. unfold all_doubling_ok in *.
  rewrite Forall_forall in *. intros [k v] Hin.
  apply py_dict_In in Hin. apply get_In in Hin. apply in_rev in Hin. now apply H.
Qed.

(** ** Doubling a sum *)

Local Open Scope Z_scope.

Lemma binary_round_aux_least s m :
  Zpos (digits2_pos m) <= 53 ->
  binary_round_aux prec emax s (Zpos m) (-1074) loc_Exact = S754_finite s m (-1074).
Proof.
  intros Hd. unfold binary_round_aux, shr_fexp, shr. rewrite fexp_val.
  unfold Zdigits2.
  replace (Z.max (Zpos (digits2_pos m) + -1074 - 53) (-1074) - -1074) with 0 by lia.
  simpl shr_record_of_loc. simpl shr_m. simpl loc_of_shr_record.
  simpl round_nearest_even. rewrite fexp_val. unfold Zdigits2.
  replace (Z.max (Zpos (digits2_pos m) + -1074 - 53) (-1074) - -1074) with 0 by lia.
  reflexivity.
Qed.

Lemma binary_round_scale s m e :
  -1074 <= e -> above_least (binary_round prec emax s m e) ->
  binary_round prec emax s m (e + 1) = SFdouble (binary_round prec emax s m e).
Proof.
  intros He. unfold binary_round, shl_align. rewrite !fexp_val.
  set (d := Zpos (digits2_pos m)).
  destruct (Z_le_gt_dec (-1074) (d + e - 53)) as [Hn|Hs].
  - intros _.
    replace (Z.max (d + (e + 1) - 53) (-1074) - (e + 1)) with (d - 53) by lia.
    replace (Z.max (d + e - 53) (-1074) - e) with (d - 53) by lia.
    replace (Z.max (d + (e + 1) - 53) (-1074)) with (Z.max (d + e - 53) (-1074) + 1)
      by lia.
    destruct (d - 53) as [|p|p]; apply binary_round_aux_scale;
      apply same_shift_above; lia.
  - replace (Z.max (d + e - 53) (-1074)) with (-1074) by lia.
    destruct (-1074 - e) as [|p|p] eqn:E; try lia.
    + replace e with (-1074) by lia.
      rewrite binary_round_aux_least by (fold d; lia). simpl. lia.
    + rewrite binary_round_aux_least.
      * simpl. lia.
      * change (Pos.iter xO m p) with (shift_pos p m).
        rewrite digits2_shift_pos. fold d. lia.
Qed.

Lemma shl_align_fst_shift m e e' :
  fst (shl_align m (e + 1) (e' + 1)) = fst (shl_align m e e').
Proof.
  unfold shl_align. replace (e' + 1 - (e + 1)) with (e' - e) by lia.
  now destruct (e' - e).
Qed.

Lemma binary_normalize_scale m e :
  -1074 <= e -> above_least (binary_normalize prec emax m e false) ->
  binary_normalize prec emax m (e + 1) false =
  SFdouble (binary_normalize prec emax m e false).
Proof.
  intros He. unfold binary_normalize. destruct m as [|m|m]; [reflexivity| |];
    now apply binary_round_scale.
Qed.

(** Doubling both terms doubles a sum that is above the least exponent. *)
Lemma SFadd_double sx mx ex sy my ey :
  -1074 <= ex -> -1074 <= ey ->
  above_least (SF64add (S754_finite sx mx ex) (S754_finite sy my ey)) ->
  SF64add (S754_finite sx mx (ex + 1)) (S754_finite sy my (ey + 1)) =
  SFdouble (SF64add (S754_finite sx mx ex) (S754_finite sy my ey)).
Proof.
  intros Hx Hy. unfold SF64add, SFadd.
  rewrite Z.add_min_distr_r, !shl_align_fst_shift.
  apply binary_normalize_scale. lia.
Qed.

Local Close Scope Z_scope.

(** Values that double exactly: the finite case comes with its exponent. *)
Lemma doubling_ok_cases x :
  doubling_ok x = true ->
  (exists s, Prim2SF x = S754_zero s /\ Prim2SF (2 * x) = S754_zero s) \/
  (exists s m e, Prim2SF x = S754_finite s m e /\ (-1052 <= e)%Z /\
                 (e + 1 <= 971)%Z /\
                 Prim2SF (2 * x) = S754_finite s m (e + 1)).
Proof.
  unfold doubling_ok. intros H. apply andb_prop in H. destruct H as [H H2].
  apply orb_prop in H. destruct H as [H|H].
  - left. destruct (eqb_zero_spec x H) as (s & Hz). exists s. split; [trivial|].
    rewrite mul_spec, Hz. reflexivity.
  - right. destruct (in_range_double_finite x H H2) as (s & m & e & Hx & He & Hd).
    exists s, m, e. repeat split; trivial.
    pose proof (Prim2SF_valid (2 * x)) as Hv. rewrite Hd in Hv.
    now apply valid_finite in Hv.
Qed.

(** Twice a value that is zero or in range. *)
Lemma double_zero_or_in_range x :
  ((x =? 0) || in_range x) = true -> Prim2SF (2 * x) = SFdouble (Prim2SF x).
Proof.
  intros H. apply orb_prop in H. destruct H as [H|H].
  - destruct (eqb_zero_spec x H) as (s & Hz). rewrite mul_spec, Hz. reflexivity.
  - apply in_range_spec in H. destruct H as (s & m & e & Hx & He).
    rewrite Hx. apply double_in_range; [trivial|lia].
Qed.

Lemma above_least_zero_or_in_range x :
  ((x =? 0) || in_range x) = true -> above_least (Prim2SF x).
Proof.
  intros H. apply orb_prop in H. destruct H as [H|H].
  - destruct (eqb_zero_spec x H) as (s & ->). exact I.
  - apply in_range_spec in H. destruct H as (s & m & e & -> & He). simpl. lia.
Qed.

(** Adding the doubles of two values gives the double of their sum. *)
Lemma add_double x y :
  doubling_ok x = true -> doubling_ok y = true ->
  ((x + y =? 0) || in_range (x + y)) = true ->
  2 * x + 2 * y = 2 * (x + y).
Proof.
  intros Hx Hy Hsum. apply Prim2SF_inj.
  rewrite (double_zero_or_in_range _ Hsum).
  apply above_least_zero_or_in_range in Hsum. revert Hsum.
  rewrite !add_spec.
  destruct (doubling_ok_cases x Hx)
    as [(sx & Hx1 & Hx2)|(sx & mx & ex & Hx1 & Hex & Hex' & Hx2)],
       (doubling_ok_cases y Hy)
    as [(sy & Hy1 & Hy2)|(sy & my & ey & Hy1 & Hey & Hey' & Hy2)];
    rewrite Hx1, Hx2, Hy1, Hy2.
  - intros _. now destruct sx, sy.
  - intros _. simpl. destruct (ey + 1 <=? 971)%Z eqn:E; [reflexivity|lia].
  - intros _. simpl. destruct (ex + 1 <=? 971)%Z eqn:E; [reflexivity|lia].
  - intros Hab. apply SFadd_double; trivial; lia.
Qed.

Lemma sums_ok_total {A} (value : A -> float) t :
  sums_ok value t -> doubling_ok (total value t) = true.
Proof. destruct t; simpl; tauto. Qed.

Lemma total_double {A} (value value2 : A -> float) t :
  (forall a, In a (terms t) -> value2 a = 2 * value a) ->
  sums_ok value t ->
  total value2 t = 2 * total value t.
Proof.
  induction t as [a|t IHt u IHu]; simpl; intros Hterms Hok.
  - apply Hterms. now left.
  - destruct Hok as (Ht & Hu & Hsum).
    rewrite IHt, IHu; trivial;
      try (intros a Ha; apply Hterms; apply in_or_app; tauto).
    apply add_double; try now apply sums_ok_total.
    unfold doubling_ok in Hsum. apply andb_prop in Hsum. tauto.
Qed.


Lemma doubling_ok_finite x :
  doubling_ok x = true -> is_finite x = true /\ is_finite (2 * x) = true.
Proof.
  intros H. pose proof (doubling_ok_spec x H) as Hs.
  unfold doubling_ok in H. apply andb_prop in H. destruct H as [_ H2].
  split; [|exact H2]. unfold is_finite.
  destruct Hs as [(s & -> & _)|(s & m & e & -> & _)]; reflexivity.
Qed.



(** ** The theorems on concrete runs *)

Lemma C1_mass_generation_witness :
  exists array,
    computeArray three_cells (0, 0, 1, 1) 0.5 = Return (array, tt, PyFloat (-99999)) /\
    cell array 0 0 = Some (120 * 0.5 * 7 / 1000) /\
    cell array 0 1 = Some nan.
Proof.
  destruct (C1_mass_generation three_cells 0 0 1 1 0.5 tt [[120; -99999; 0]] tt
                               eq_refl eq_refl eq_refl)
    as (array & Hrun & _ & Hcells).
  exists array. split; [exact Hrun|]. split.
  - destruct (Hcells 0%nat 0%nat 120 eq_refl) as (m & Hm & Hdef & _).
    rewrite Hm, (Hdef eq_refl). reflexivity.
  - destruct (Hcells 0%nat 1%nat (-99999) eq_refl) as (m & Hm & _ & Hneg).
    rewrite Hm. destruct (Hneg eq_refl) as (-> & _). reflexivity.
Defined.

Lemma getNamesStats_records_unchanged_witness :
  exists names stats,
    getNamesStats two_zones tt PyNone tt [] "ADM2_EN" [] [] "sum" =
      Return (names, stats) /\
    nth_error stats 1 = Some (Stat PyNone) /\
    nth_error stats 1 <> Some (Stat (PyFloat 0)).
Proof.
  destruct (getNamesStats_records_unchanged two_zones tt PyNone tt [] "ADM2_EN" [] [] "sum" _
                                  eq_refl)
    as (names & stats & Hrun & _ & Hpos).
  - repeat constructor; discriminate.
  - exists names, stats. split; [exact Hrun|].
    exact (proj2 (Hpos 1%nat _ eq_refl) eq_refl).
Defined.

Lemma C3_ranking_descending_stable_witness :
  exists mun_dict_sorted provider_dict_sorted,
    snd (processStats lagos_areas
                      ["A"; "B"; "C"]%string [PyFloat 30; PyFloat 30; PyFloat 10]
                      ["P"; "Q"]%string [PyFloat 100; PyFloat 50]
                      "total_coll" []) =
      Return (map wrap mun_dict_sorted, map wrap provider_dict_sorted) /\
    is_ranking_of [("A", 30); ("B", 30); ("C", 10)]%string mun_dict_sorted /\
    is_ranking_of [("P", 100 - 120); ("Q", 50 - 10)]%string provider_dict_sorted.
Proof.
  refine (proj1 (C3_ranking_descending_stable
                   lagos_areas "total_coll" [120; 10]
                   [("A", 30); ("B", 30); ("C", 10)]%string
                   [("P", 100); ("Q", 50)]%string [] eq_refl _ _ _ _)).
  - repeat constructor; simpl; intuition discriminate.
  - repeat constructor; simpl; intuition discriminate.
  - repeat constructor.
  - repeat constructor.
Defined.

Lemma C7_negative_deficit_kept_witness :
  (100 - 120 <? 0) = true /\
  exists mun_dict_sorted provider_dict_sorted,
    processStats lagos_areas ["A"%string] [PyFloat 30]
                 ["P"; "Q"]%string [PyFloat 100; PyFloat 50] "total_coll" [] =
      ([header1] ++ map line mun_dict_sorted
                 ++ [header2] ++ map line provider_dict_sorted,
       Return (map wrap mun_dict_sorted, map wrap provider_dict_sorted)) /\
    In ("P"%string, 100 - 120) provider_dict_sorted.
Proof.
  destruct (C7_negative_deficit_kept
              lagos_areas "total_coll" [120; 10] ["A"%string] [30]
              ["P"; "Q"]%string [100; 50] [] 0%nat "P"%string 100 120)
    as (Hneg & (m & p & Hrun & Hin & _) & _); try reflexivity.
  - repeat constructor.
  - repeat constructor.
  - repeat constructor; simpl; intuition discriminate.
  - split; [exact Hneg|]. exists m, p. split; [exact Hrun|exact Hin].
Defined.

Lemma C9_duplicate_names_collapse_witness :
  exists mun_dict_sorted provider_dict_sorted,
    snd (processStats lagos_areas
                      ["A"; "B"; "A"]%string [PyFloat 10; PyFloat 20; PyFloat 30]
                      ["P"; "P"]%string [PyFloat 100; PyFloat 50]
                      "total_coll" []) =
      Return (map wrap mun_dict_sorted, map wrap provider_dict_sorted) /\
    is_collapse_of [("A", 10); ("B", 20); ("A", 30)]%string mun_dict_sorted /\
    is_collapse_of [("P", 100 - 120); ("P", 50 - 10)]%string provider_dict_sorted.
Proof.
  refine (C9_duplicate_names_collapse
            lagos_areas "total_coll" [120; 10]
            ["A"; "B"; "A"]%string [10; 20; 30]
            ["P"; "P"]%string [100; 50] [] eq_refl _ _).
  - repeat constructor.
  - repeat constructor.
Defined.



(** ** Signs and NaN through the mass-generation transform *)

Local Open Scope Z_scope.

Lemma shr_fexp_nonneg m e l :
  0 <= m -> 0 <= shr_m (fst (shr_fexp prec emax m e l)).
Proof.
  intros Hm. unfold shr_fexp, shr.
  assert (shr_m (shr_record_of_loc m l) = m) as Hrec
      by (destruct l as [|[]]; reflexivity).
  destruct (SpecFloat.fexp prec emax (Zdigits2 m + e) - e) as [|p|p]; simpl fst.
  - lia.
  - rewrite iter_shr_1_m by lia. rewrite Hrec. now apply Z.shiftr_nonneg.
  - lia.
Qed.

(** Rounding a magnitude gives a number of the sign asked for, never NaN. *)
Lemma binary_round_aux_sign s m e l :
  0 <= m -> has_sign s (binary_round_aux prec emax s m e l).
Proof.
  intros Hm. unfold binary_round_aux.
  pose proof (shr_fexp_nonneg m e l Hm) as H1.
  destruct (shr_fexp prec emax m e l) as [mrs1 e1]. simpl in H1.
  pose proof (round_nearest_even_le _ (loc_of_shr_record mrs1) H1) as [H2 _].
  pose proof (shr_fexp_nonneg _ e1 loc_Exact H2) as H3.
  destruct (shr_fexp prec emax _ e1 loc_Exact) as [mrs2 e2]. simpl in H3.
  destruct (shr_m mrs2) as [|m3|m3]; try lia; [reflexivity|].
  destruct (e2 <=? emax - prec); reflexivity.
Qed.

Lemma has_sign_not_neg x : has_sign false x -> is_neg x = false.
Proof. destruct x as [s|s| |s m e]; simpl; intros H; subst; tauto. Qed.

Lemma SFmul_not_neg x y :
  is_neg x = false -> is_neg y = false -> is_neg (SF64mul x y) = false.
Proof.
  destruct x as [sx|[]| |[] mx ex], y as [sy|[]| |[] my ey];
    try discriminate; try reflexivity.
  intros _ _. apply has_sign_not_neg.
  apply (binary_round_aux_sign false). lia.
Qed.

Lemma SFdiv_core_nonneg mx ex my ey :
  0 <= fst (fst (SFdiv_core_binary prec emax (Zpos mx) ex (Zpos my) ey)).
Proof.
  unfold SFdiv_core_binary.
  set (e' := Z.min _ _). set (m' := match ex - ey - e' with 0 => _ | _ => _ end).
  assert (0 <= m') as Hm.
  { subst m'. destruct (ex - ey - e') as [|p|p]; try lia.
    apply Z.shiftl_nonneg. lia. }
  pose proof (Z.div_pos m' (Zpos my) Hm ltac:(lia)) as Hq.
  unfold Z.div in Hq. destruct (Z.div_eucl m' (Zpos my)) as [q r]. exact Hq.
Qed.

Lemma SFdiv_sign sx mx ex sy my ey :
  has_sign (xorb sx sy) (SF64div (S754_finite sx mx ex) (S754_finite sy my ey)).
Proof.
  unfold SF64div, SFdiv.
  pose proof (SFdiv_core_nonneg mx ex my ey) as H.
  destruct (SFdiv_core_binary prec emax (Zpos mx) ex (Zpos my) ey) as [[mz ez] lz].
  now apply binary_round_aux_sign.
Qed.

Lemma SFdiv_not_neg x my ey :
  is_neg x = false -> is_neg (SF64div x (S754_finite false my ey)) = false.
Proof.
  destruct x as [sx|[]| |[] mx ex]; try discriminate; try reflexivity.
  intros _. apply has_sign_not_neg. apply (SFdiv_sign false mx ex false my ey).
Qed.

Lemma SFmul_finite_not_nan x s m e :
  x <> S754_nan -> SF64mul x (S754_finite s m e) <> S754_nan.
Proof.
  destruct x as [sx|sx| |sx mx ex]; try discriminate; try congruence.
  intros _ H.
  pose proof (binary_round_aux_sign (xorb sx s) (Zpos (mx * m)) (ex + e) loc_Exact
                                    ltac:(lia)) as Hs.
  unfold SF64mul, SFmul in H. rewrite H in Hs. exact Hs.
Qed.

Lemma SFdiv_finite_not_nan x s m e :
  x <> S754_nan -> SF64div x (S754_finite s m e) <> S754_nan.
Proof.
  destruct x as [sx|sx| |sx mx ex]; try discriminate; try congruence.
  intros _ H. pose proof (SFdiv_sign sx mx ex s m e) as Hs.
  rewrite H in Hs. exact Hs.
Qed.

Local Close Scope Z_scope.

Lemma ltb_zero_neg x : (x <? 0) = is_neg (Prim2SF x).
Proof.
  rewrite ltb_spec. change (Prim2SF 0) with (S754_zero false). apply SFltb_zero.
Qed.

(** With a rate that is not below zero, no mass is below zero. *)
Lemma mass_not_below_zero p r : (r <? 0) = false -> (mass p r <? 0) = false.
Proof.
  intros Hr. unfold mass. destruct (p <? 0) eqn:Hp; [apply ltb_nan_l|].
  rewrite ltb_zero_neg in *. rewrite div_spec, !mul_spec.
  apply (SFdiv_not_neg _ 8796093022208000 (-43)).
  apply SFmul_not_neg; [|reflexivity].
  now apply SFmul_not_neg.
Qed.

Lemma finite_nonzero_spec r :
  is_finite r = true -> (r =? 0) = false ->
  exists s m e, Prim2SF r = S754_finite s m e.
Proof.
  unfold is_finite. rewrite eqb_spec. change (Prim2SF 0) with (S754_zero false).
  destruct (Prim2SF r) as [s|s| |s m e]; try discriminate. eauto.
Qed.

(** With a finite rate other than zero, the mass is NaN exactly for the
    cells without data. *)
Lemma mass_nan p r :
  is_finite r = true -> (r =? 0) = false ->
  (is_nan (mass p r) = true <-> (p <? 0) = true \/ is_nan p = true).
Proof.
  intros Hf Hz. destruct (finite_nonzero_spec r Hf Hz) as (s & m & e & Hr).
  unfold mass. destruct (p <? 0) eqn:Hp; [split; [now left|reflexivity]|].
  split.
  - intros H. right. apply is_nan_spec in H.
    destruct (is_nan p) eqn:Hn; [reflexivity|exfalso].
    revert H. rewrite div_spec, !mul_spec, Hr.
    apply SFdiv_finite_not_nan. apply SFmul_finite_not_nan.
    apply SFmul_finite_not_nan. intros Hnan. apply is_nan_spec in Hnan. congruence.
  - intros [H|H]; [discriminate|]. apply nan_unique in H. subst p.
    now rewrite !mul_nan_l, div_nan_l.
Qed.

(** With a rate that is not below zero, [computeArray] returns no cell below
    zero, whatever the raster holds: a cell is a mass of zero or more, or
    NaN. *)
Theorem computeArray_never_negative {Window Affine}
        (dataset : DatasetReader Window Affine)
        minx miny maxx maxy sw_ppd window pop_array affine :
  ds_window dataset minx miny maxx maxy = Return window ->
  ds_read dataset 1 window = Return pop_array ->
  ds_window_transform dataset window = Return affine ->
  (sw_ppd <? 0) = false ->
  exists array,
    computeArray dataset (minx, miny, maxx, maxy) sw_ppd =
      Return (array, affine, ds_nodata dataset) /\
    forall i j m, cell array i j = Some m -> (m <? 0) = false.
Proof.
  intros Hw Hr Ht Hrate. eexists.
  split; [exact (computeArray_array _ _ _ _ _ _ _ _ _ Hw Hr Ht)|].
  intros i j m. rewrite cell_map.
  destruct (cell pop_array i j) as [p|]; simpl; [|discriminate].
  intros [= <-]. now apply mass_not_below_zero.
Qed.

Lemma computeArray_never_negative_witness :
  exists array,
    computeArray three_cells (0, 0, 1, 1) 0.5 =
      Return (array, tt, PyFloat (-99999)) /\
    forall i j m, cell array i j = Some m -> (m <? 0) = false.
Proof.
  exact (computeArray_never_negative three_cells 0 0 1 1 0.5 tt [[120; -99999; 0]] tt
                                     eq_refl eq_refl eq_refl eq_refl).
Defined.

(** With a finite rate other than zero, the cells of the result that are
    NaN are exactly the cells whose population is negative (the no-data
    sentinel) or NaN: no other cell loses its value, not even by overflow. *)
Theorem computeArray_nan_marks_nodata {Window Affine}
        (dataset : DatasetReader Window Affine)
        minx miny maxx maxy sw_ppd window pop_array affine :
  ds_window dataset minx miny maxx maxy = Return window ->
  ds_read dataset 1 window = Return pop_array ->
  ds_window_transform dataset window = Return affine ->
  is_finite sw_ppd = true -> (sw_ppd =? 0) = false ->
  exists array,
    computeArray dataset (minx, miny, maxx, maxy) sw_ppd =
      Return (array, affine, ds_nodata dataset) /\
    forall i j p, cell pop_array i j = Some p ->
      exists m, cell array i j = Some m /\
        (is_nan m = true <-> (p <? 0) = true \/ is_nan p = true).
Proof.
  intros Hw Hr Ht Hf Hz. eexists.
  split; [exact (computeArray_array _ _ _ _ _ _ _ _ _ Hw Hr Ht)|].
  intros i j p Hp. rewrite cell_map, Hp. simpl. eexists. split; [reflexivity|].
  now apply mass_nan.
Qed.

Lemma computeArray_nan_marks_nodata_witness :
  exists array,
    computeArray three_cells (0, 0, 1, 1) 0.5 =
      Return (array, tt, PyFloat (-99999)) /\
    forall i j p, cell [[120; -99999; 0]] i j = Some p ->
      exists m, cell array i j = Some m /\
        (is_nan m = true <-> (p <? 0) = true \/ is_nan p = true).
Proof.
  exact (computeArray_nan_marks_nodata three_cells 0 0 1 1 0.5 tt [[120; -99999; 0]] tt
                                       eq_refl eq_refl eq_refl eq_refl eq_refl).
Defined.

(** ** The stages of [processStats] *)

(** [processStats] stage by stage: the column, the deficits, the two
    sortings, then the two printed blocks. *)
Lemma processStats_stages service_areas mun_names mun_stats provider_names
      provider_stats field out :
  processStats service_areas mun_names mun_stats provider_names provider_stats
               field out =
  match column service_areas field with
  | Raise e => (out, Raise e)
  | Return coll =>
      match uncollected provider_stats coll with
      | Raise e => (out, Raise e)
      | Return unc =>
          match sorted_by_value_reverse (py_dict (combine mun_names mun_stats)) with
          | Raise e => (out, Raise e)
          | Return mr =>
              match sorted_by_value_reverse (py_dict (combine provider_names unc)) with
              | Raise e => (out, Raise e)
              | Return pr =>
                  match for_each print_item mr (out ++ [header1]) with
                  | (o, Raise e) => (o, Raise e)
                  | (o, Return _) =>
                      match for_each print_item pr (o ++ [header2]) with
                      | (o', Raise e) => (o', Raise e)
                      | (o', Return _) => (o', Return (mr, pr))
                      end
                  end
              end
          end
      end
  end.
Proof.
  unfold processStats, items. unfold bind at 1, lift at 1.
  destruct (column service_areas field) as [coll|]; [|reflexivity].
  unfold bind at 1, lift at 1.
  destruct (uncollected provider_stats coll) as [unc|]; [|reflexivity].
  unfold bind at 1, lift at 1.
  destruct (sorted_by_value_reverse (py_dict (combine mun_names mun_stats)))
    as [mr|]; [|reflexivity].
  unfold bind at 1, lift at 1.
  destruct (sorted_by_value_reverse (py_dict (combine provider_names unc)))
    as [pr|]; [|reflexivity].
  unfold bind at 1, print at 1. unfold bind at 1. fold header1.
  destruct (for_each print_item mr (out ++ [header1])) as [o [u|]]; [|reflexivity].
  unfold bind at 1, print at 1. unfold bind at 1. fold header2.
  destruct (for_each print_item pr (o ++ [header2])) as [o' [u'|]]; reflexivity.
Qed.

Lemma column_raises df field e :
  column df field = Raise e -> e = KeyError /\ ~ In field (map fst df).
Proof.
  induction df as [|[name values] df IH]; simpl.
  - intros [= <-]. tauto.
  - destruct (String.eqb_spec name field) as [->|Hne]; [discriminate|].
    intros H. destruct (IH H) as [-> Hout]. split; [reflexivity|]. tauto.
Qed.

Lemma column_missing df field :
  ~ In field (map fst df) -> column df field = Raise KeyError.
Proof.
  induction df as [|[name values] df IH]; simpl; [reflexivity|].
  intros Hout. destruct (String.eqb_spec name field) as [->|Hne]; [tauto|].
  apply IH. tauto.
Qed.

Lemma uncollected_raises provider_stats provider_coll e :
  uncollected provider_stats provider_coll = Raise e ->
  e = TypeError /\ In PyNone provider_stats.
Proof.
  revert provider_coll.
  induction provider_stats as [|g stats IH]; intros [|r coll]; try discriminate.
  rewrite uncollected_cons. destruct g as [|x]; simpl.
  - intros [= <-]. auto.
  - destruct (uncollected stats coll) as [unc|e'] eqn:E; simpl; [discriminate|].
    intros [= <-]. destruct (IH coll E) as [-> Hin]. auto.
Qed.

Lemma uncollected_returns provider_stats provider_coll provider_uncoll :
  uncollected provider_stats provider_coll = Return provider_uncoll ->
  exists ds,
    provider_uncoll = map PyFloat ds /\
    forall x, In x ds ->
      exists g r, In (PyFloat g, r) (combine provider_stats provider_coll) /\
                  x = g - r.
Proof.
  revert provider_coll provider_uncoll.
  induction provider_stats as [|g stats IH]; intros [|r coll] unc.
  1-3: intros [= <-]; exists []; split; [reflexivity|intros x []].
  rewrite uncollected_cons. destruct g as [|x]; simpl; [discriminate|].
  destruct (uncollected stats coll) as [unc'|] eqn:E; simpl; [|discriminate].
  intros [= <-]. destruct (IH coll unc' E) as (ds & -> & Hds).
  exists ((x - r) :: ds). split; [reflexivity|].
  intros y [<-|Hy]; [exists x, r; auto|].
  destruct (Hds y Hy) as (g' & r' & Hin & ->). exists g', r'. auto.
Qed.

(** *** Sorting values that may be undefined *)

Lemma insort_perm x run r : insort x run = Return r -> Permutation (x :: run) r.
Proof.
  revert r. induction run as [|y run IH]; intros r; simpl.
  - intros [= <-]. reflexivity.
  - destruct (py_lt (snd x) (snd y)) as [[]|]; simpl; try discriminate.
    + intros [= <-]. reflexivity.
    + destruct (insort x run) as [r'|]; simpl; [|discriminate].
      intros [= <-]. rewrite perm_swap. apply perm_skip. now apply IH.
Qed.

Lemma sort_forward_perm todo run r :
  sort_forward todo run = Return r -> Permutation (todo ++ run) r.
Proof.
  revert run. induction todo as [|x todo IH]; intros run; simpl.
  - intros [= <-]. reflexivity.
  - destruct (insort x run) as [run'|] eqn:E; simpl; [|discriminate].
    intros H. apply IH in H. rewrite <- H. apply insort_perm in E.
    rewrite <- E. apply Permutation_middle.
Qed.

Lemma sorted_perm l r : sorted_by_value_reverse l = Return r -> Permutation l r.
Proof.
  unfold sorted_by_value_reverse.
  destruct (sort_forward (rev l) []) as [r'|] eqn:E; simpl; [|discriminate].
  intros [= <-]. apply sort_forward_perm in E. rewrite app_nil_r in E.
  rewrite <- Permutation_rev, <- E. apply Permutation_rev.
Qed.

(** A comparison is only made between two numbers. *)
Lemma insort_returns x y run r :
  insort x (y :: run) = Return r -> snd x <> PyNone /\ snd y <> PyNone.
Proof.
  simpl. destruct (snd x), (snd y); simpl; try discriminate.
  intros _. split; discriminate.
Qed.

Lemma insort_raises x run e :
  insort x run = Raise e -> e = TypeError /\ exists n, In (n, PyNone) (x :: run).
Proof.
  induction run as [|y run IH]; simpl; [discriminate|].
  destruct x as [nx vx], y as [ny vy]. cbn [snd].
  destruct vx as [|a].
  - intros [= <-]. split; [reflexivity|]. exists nx. now left.
  - destruct vy as [|b].
    + intros [= <-]. split; [reflexivity|]. exists ny. right. now left.
    + simpl. destruct (a <? b); [discriminate|].
      destruct (insort (nx, PyFloat a) run) as [r'|e'] eqn:E; simpl; [discriminate|].
      intros [= <-]. destruct (IH eq_refl) as [-> (n & Hin)].
      split; [reflexivity|]. exists n. simpl in *. tauto.
Qed.

Lemma sort_forward_raises todo run e :
  sort_forward todo run = Raise e ->
  e = TypeError /\ exists n, In (n, PyNone) (todo ++ run).
Proof.
  revert run. induction todo as [|x todo IH]; intros run; simpl; [discriminate|].
  destruct (insort x run) as [run'|e'] eqn:E; simpl.
  - intros H. destruct (IH _ H) as [-> (n & Hin)]. split; [reflexivity|].
    exists n. apply insort_perm in E. apply in_app_iff in Hin.
    destruct Hin as [Hin|Hin].
    + right. apply in_app_iff. now left.
    + apply (Permutation_in _ (Permutation_sym E)) in Hin.
      destruct Hin as [<-|Hin]; [now left|]. right. apply in_app_iff. now right.
  - intros [= <-]. destruct (insort_raises _ _ _ E) as [-> (n & Hin)].
    split; [reflexivity|]. exists n.
    destruct Hin as [<-|Hin]; [now left|]. right. apply in_app_iff. now right.
Qed.

Lemma sorted_raises l e :
  sorted_by_value_reverse l = Raise e ->
  e = TypeError /\ exists n, In (n, PyNone) l.
Proof.
  unfold sorted_by_value_reverse.
  destruct (sort_forward (rev l) []) as [r'|e'] eqn:E; simpl; [discriminate|].
  intros [= <-]. destruct (sort_forward_raises _ _ _ E) as [-> (n & Hin)].
  split; [reflexivity|]. exists n. rewrite app_nil_r in Hin. now apply in_rev.
Qed.

Lemma sort_forward_defined todo y run r :
  Forall (fun i => snd i <> PyNone) (y :: run) ->
  sort_forward todo (y :: run) = Return r ->
  Forall (fun i => snd i <> PyNone) todo.
Proof.
  revert y run. induction todo as [|x todo IH]; intros y run Hrun; [constructor|].
  cbn [sort_forward].
  destruct (insort x (y :: run)) as [run'|] eqn:E; [|discriminate].
  cbn [obind]. intros H.
  pose proof (insort_returns _ _ _ _ E) as [Hx _].
  pose proof (insort_perm _ _ _ E) as Hperm.
  constructor; [exact Hx|].
  destruct run' as [|y' run'].
  - apply Permutation_sym, Permutation_nil in Hperm. discriminate.
  - apply (IH y' run'); [|exact H].
    eapply Permutation_Forall; [exact Hperm|]. now constructor.
Qed.

(** When two or more items are sorted, every value has been compared. *)
Lemma sorted_defined l r :
  sorted_by_value_reverse l = Return r ->
  Forall (fun i => snd i <> PyNone) l \/ exists x, l = [x].
Proof.
  unfold sorted_by_value_reverse.
  destruct (sort_forward (rev l) []) as [r'|] eqn:E; simpl; [|discriminate].
  intros _.
  assert (Forall (fun i => snd i <> PyNone) (rev l) \/ exists x, rev l = [x]) as H.
  { destruct (rev l) as [|x [|y todo]]; [left; constructor|right; eauto|left].
    change (sort_forward (x :: y :: todo) [])
      with (run' <- insort y [x] ;; sort_forward todo run') in E.
    destruct (insort y [x]) as [run'|] eqn:Ey; [|discriminate].
    cbn [obind] in E.
    pose proof (insort_returns _ _ _ _ Ey) as [Hy Hx].
    pose proof (insort_perm _ _ _ Ey) as Hperm.
    constructor; [exact Hx|]. constructor; [exact Hy|].
    destruct run' as [|y' run'].
    - apply Permutation_sym, Permutation_nil in Hperm. discriminate.
    - apply (sort_forward_defined todo y' run' r'); [|exact E].
      eapply Permutation_Forall; [exact Hperm|]. repeat constructor; trivial. }
  destruct H as [H|(x & H)].
  - left. apply Forall_rev in H. now rewrite rev_involutive in H.
  - right. exists x. rewrite <- (rev_involutive l), H. reflexivity.
Qed.

(** *** Printing *)

Lemma py_int_raises v e :
  py_int v = Raise e ->
  match e with
  | TypeError => v = PyNone
  | ValueError => exists x, v = PyFloat x /\ is_nan x = true
  | OverflowError => exists x, v = PyFloat x /\ is_infinite x = true
  | _ => False
  end.
Proof.
  destruct v as [|x]; simpl; [intros [= <-]; reflexivity|].
  destruct (Prim2SF x) as [s|s| |s m e'] eqn:E; try discriminate.
  - intros [= <-]. exists x. split; [reflexivity|]. unfold is_infinite. now rewrite E.
  - intros [= <-]. exists x. split; [reflexivity|]. now apply is_nan_spec.
Qed.

Lemma for_each_print_raises l out out' e :
  for_each print_item l out = (out', Raise e) ->
  exists i, In i l /\ py_int (snd i) = Raise e.
Proof.
  revert out. induction l as [|i l IH]; intros out; [discriminate|].
  cbn [for_each]. unfold bind at 1. unfold print_item at 1, bind at 1, lift.
  destruct (py_int (snd i)) as [n|e'] eqn:E.
  - unfold print. intros H. destruct (IH _ H) as (i' & Hin & Hi').
    exists i'. split; [now right|exact Hi'].
  - intros [= _ <-]. exists i. split; [now left|exact E].
Qed.

Lemma finite_values_wrap (l : list (string * pyval)) :
  Forall (fun i => finite_value (snd i)) l ->
  exists l', l = map wrap l' /\ all_finite l'.
Proof.
  induction 1 as [|[n v] l (x & Hv & Hx) _ (l' & -> & Hl')].
  - exists []. split; [reflexivity|constructor].
  - simpl in Hv. subst v. exists ((n, x) :: l'). split; [reflexivity|].
    constructor; trivial.
Qed.

Lemma wrap_finite_values l :
  all_finite l -> Forall (fun i => finite_value (snd i)) (map wrap l).
Proof.
  induction 1 as [|[n x] l Hx _ IH]; simpl; constructor; trivial.
  exists x. auto.
Qed.

Lemma py_dict_incl {V} (pairs : list (string * V)) k v :
  In (k, v) (py_dict pairs) -> In (k, v) pairs.
Proof.
  intros H. apply py_dict_In in H. apply get_In in H. now apply in_rev.
Qed.

Lemma print_raises_cause l out out' e (P : float -> Prop) :
  for_each print_item l out = (out', Raise e) ->
  (forall n x, In (n, PyFloat x) l -> P x) ->
  match e with
  | TypeError => exists n, In (n, PyNone) l
  | ValueError => exists x, P x /\ is_nan x = true
  | OverflowError => exists x, P x /\ is_infinite x = true
  | _ => False
  end.
Proof.
  intros H HP. apply for_each_print_raises in H.
  destruct H as ([n v] & Hin & Hi). apply py_int_raises in Hi. cbn [snd] in Hi.
  destruct e; trivial.
  - subst v. eauto.
  - destruct Hi as (x & -> & Hx). eauto.
  - destruct Hi as (x & -> & Hx). eauto.
Qed.

(** ** When [processStats] returns, and what it raises *)

(** [processStats] returns exactly when the column of reported totals is
    there, no statistic of a service area is undefined at a zipped position,
    and every value kept in the two dictionaries is a finite number. *)
Theorem processStats_returns_iff service_areas mun_names mun_stats
        provider_names provider_stats provider_coll_field out :
  (exists out' rankings,
      processStats service_areas mun_names mun_stats provider_names
                   provider_stats provider_coll_field out =
        (out', Return rankings)) <->
  exists provider_coll provider_uncoll,
    column service_areas provider_coll_field = Return provider_coll /\
    uncollected provider_stats provider_coll = Return provider_uncoll /\
    Forall (fun i => finite_value (snd i)) (py_dict (combine mun_names mun_stats)) /\
    Forall (fun i => finite_value (snd i))
           (py_dict (combine provider_names provider_uncoll)).
Proof.
  rewrite processStats_stages. split.
  - intros (out' & rankings & H).
    destruct (column service_areas provider_coll_field) as [coll|]; [|discriminate].
    destruct (uncollected provider_stats coll) as [unc|] eqn:Eu; [|discriminate].
    exists coll, unc. split; [reflexivity|]. split; [exact Eu|].
    destruct (sorted_by_value_reverse (py_dict (combine mun_names mun_stats)))
      as [mr|] eqn:Em; [|discriminate].
    destruct (sorted_by_value_reverse (py_dict (combine provider_names unc)))
      as [pr|] eqn:Ep; [|discriminate].
    destruct (for_each print_item mr _) as [o [u|]] eqn:E1; [|discriminate].
    destruct (for_each print_item pr _) as [o' [u'|]] eqn:E2; [|discriminate].
    apply sorted_perm in Em, Ep.
    apply for_each_print_returns in E1, E2. split.
    + eapply Permutation_Forall; [apply Permutation_sym, Em|exact E1].
    + eapply Permutation_Forall; [apply Permutation_sym, Ep|exact E2].
  - intros (coll & unc & -> & -> & Hm & Hp).
    apply finite_values_wrap in Hm, Hp.
    destruct Hm as (dm & -> & Hm), Hp as (dp & -> & Hp).
    rewrite !sorted_wrap.
    rewrite for_each_print by now apply ranked_all_finite.
    rewrite for_each_print by now apply ranked_all_finite.
    eauto.
Qed.

(** What each exception of [processStats] tells: [KeyError], that the
    table has no column of the name given, and nothing was printed;
    [TypeError], that a statistic is [None]; [ValueError], that a municipal
    statistic or a deficit is NaN; [OverflowError], that one is infinite.
    No other exception is raised. *)
Theorem processStats_exceptions service_areas mun_names mun_stats
        provider_names provider_stats provider_coll_field out out' e :
  processStats service_areas mun_names mun_stats provider_names provider_stats
               provider_coll_field out = (out', Raise e) ->
  match e with
  | KeyError => ~ In provider_coll_field (map fst service_areas) /\ out' = out
  | TypeError => In PyNone mun_stats \/ In PyNone provider_stats
  | ValueError =>
      exists x, run_value service_areas provider_coll_field
                          mun_stats provider_stats x /\ is_nan x = true
  | OverflowError =>
      exists x, run_value service_areas provider_coll_field
                          mun_stats provider_stats x /\ is_infinite x = true
  | RasterioError => False
  end.
Proof.
  rewrite processStats_stages.
  destruct (column service_areas provider_coll_field) as [coll|e0] eqn:Ec.
  2: { intros [= <- <-]. apply column_raises in Ec. destruct Ec as [-> Hout]. auto. }
  destruct (uncollected provider_stats coll) as [unc|e0] eqn:Eu.
  2: { intros [= _ <-]. apply uncollected_raises in Eu. destruct Eu as [-> Hin]. auto. }
  destruct (uncollected_returns _ _ _ Eu) as (ds & -> & Hds).
  assert (forall n v, In (n, v) (py_dict (combine mun_names mun_stats)) ->
                      In v mun_stats) as Hmun.
  { intros n v Hin. apply py_dict_incl in Hin. now apply in_combine_r in Hin. }
  assert (forall n v, In (n, v) (py_dict (combine provider_names (map PyFloat ds))) ->
                      exists x, v = PyFloat x /\ In x ds) as Hprov.
  { intros n v Hin. apply py_dict_incl, in_combine_r, in_map_iff in Hin.
    destruct Hin as (x & <- & Hin). eauto. }
  destruct (sorted_by_value_reverse (py_dict (combine mun_names mun_stats)))
    as [mr|e0] eqn:Em.
  2: { intros [= _ <-]. apply sorted_raises in Em. destruct Em as [-> (n & Hin)].
       left. eapply Hmun, Hin. }
  destruct (sorted_by_value_reverse (py_dict (combine provider_names (map PyFloat ds))))
    as [pr|e0] eqn:Ep.
  2: { intros [= _ <-]. apply sorted_raises in Ep. destruct Ep as [-> (n & Hin)].
       apply Hprov in Hin. destruct Hin as (x & [=] & _). }
  apply sorted_perm in Em, Ep.
  destruct (for_each print_item mr _) as [o [u|e1]] eqn:E1.
  - destruct (for_each print_item pr _) as [o' [u'|e2]] eqn:E2; [discriminate|].
    intros [= _ ->].
    apply (print_raises_cause _ _ _ _
             (run_value service_areas provider_coll_field mun_stats provider_stats))
      in E2.
    + destruct e; try contradiction; trivial. destruct E2 as (n & Hin).
      apply (Permutation_in _ (Permutation_sym Ep)), Hprov in Hin.
      destruct Hin as (x & [=] & _).
    + intros n x Hin. apply (Permutation_in _ (Permutation_sym Ep)), Hprov in Hin.
      destruct Hin as (x' & [= <-] & Hx). right.
      destruct (Hds x Hx) as (g & r & Hgr & ->). exists coll, g, r. auto.
  - intros [= _ ->].
    apply (print_raises_cause _ _ _ _
             (run_value service_areas provider_coll_field mun_stats provider_stats))
      in E1.
    + destruct e; try contradiction; trivial. destruct E1 as (n & Hin). left.
      apply (Permutation_in _ (Permutation_sym Em)), Hmun in Hin. exact Hin.
    + intros n x Hin. left.
      apply (Permutation_in _ (Permutation_sym Em)), Hmun in Hin. exact Hin.
Qed.

Lemma processStats_exceptions_witness :
  exists x, run_value lagos_areas "total_coll"
                      [PyFloat 30] [PyFloat infinity; PyFloat 50] x /\
            is_infinite x = true.
Proof.
  exact (processStats_exceptions
           lagos_areas ["A"%string] [PyFloat 30]
           ["P"; "Q"]%string [PyFloat infinity; PyFloat 50] "total_coll"
           [] _ OverflowError eq_refl).
Defined.

(** An undefined municipal statistic that is kept in [mun_dict] ends the
    run with [TypeError]: at the sorting, before anything is printed, when
    there are two or more municipalities, and at [int] of the value, after
    the first header alone, when there is just one. *)
Theorem processStats_undefined_municipality service_areas mun_names mun_stats
        provider_names provider_stats provider_coll_field
        provider_coll provider_uncoll out n :
  column service_areas provider_coll_field = Return provider_coll ->
  uncollected provider_stats provider_coll = Return provider_uncoll ->
  In (n, PyNone) (py_dict (combine mun_names mun_stats)) ->
  processStats service_areas mun_names mun_stats provider_names provider_stats
               provider_coll_field out =
    (if (1 <? List.length (py_dict (combine mun_names mun_stats)))%nat
     then out else out ++ [header1],
     Raise TypeError).
Proof.
  intros Hc Hu Hin. rewrite processStats_stages, Hc, Hu.
  destruct (uncollected_returns _ _ _ Hu) as (ds & -> & _).
  set (mun_dict := py_dict (combine mun_names mun_stats)) in *. clearbody mun_dict.
  destruct (sorted_by_value_reverse mun_dict) as [mr|e] eqn:Em.
  - destruct (sorted_defined _ _ Em) as [Hall|(x & Hx)].
    + rewrite Forall_forall in Hall. now destruct (Hall _ Hin).
    + rewrite Hx in *. destruct Hin as [->|[]].
      cbn in Em. injection Em as <-.
      cbn [List.length Nat.ltb Nat.leb].
      rewrite combine_wrap.
      rewrite (py_dict_map PyFloat (combine provider_names ds)
               : py_dict (map wrap _) = map wrap _).
      rewrite sorted_wrap. reflexivity.
  - destruct (sorted_raises _ _ Em) as [-> _].
    destruct mun_dict as [|a [|b d]]; [destruct Hin|discriminate Em|reflexivity].
Qed.

Lemma processStats_undefined_municipality_witness :
  processStats lagos_areas ["A"%string] [PyNone]
               ["P"; "Q"]%string [PyFloat 100; PyFloat 50] "total_coll" [] =
    ([header1], Raise TypeError) /\
  processStats lagos_areas ["A"; "B"]%string [PyFloat 3; PyNone]
               ["P"; "Q"]%string [PyFloat 100; PyFloat 50] "total_coll" [] =
    ([], Raise TypeError).
Proof.
  split.
  - exact (processStats_undefined_municipality
             lagos_areas ["A"%string] [PyNone]
             ["P"; "Q"]%string [PyFloat 100; PyFloat 50] "total_coll"
             [120; 10] _ [] "A"%string eq_refl eq_refl (or_introl eq_refl)).
  - exact (processStats_undefined_municipality
             lagos_areas ["A"; "B"]%string [PyFloat 3; PyNone]
             ["P"; "Q"]%string [PyFloat 100; PyFloat 50] "total_coll"
             [120; 10] _ [] "B"%string eq_refl eq_refl
             (or_intror (or_introl eq_refl))).
Defined.

(** Whenever [processStats] returns, what it has printed is what it
    returns: after the lines that were there before, the first header, one
    line for each entry of the municipal ranking in the order of the
    ranking, the second header, and one line for each entry of the ranking
    of the service providers, each line with the value cut to an integer. *)
Theorem processStats_prints_rankings service_areas mun_names mun_stats
        provider_names provider_stats provider_coll_field out out'
        mun_dict_sorted provider_dict_sorted :
  processStats service_areas mun_names mun_stats provider_names provider_stats
               provider_coll_field out =
    (out', Return (mun_dict_sorted, provider_dict_sorted)) ->
  exists mun provider,
    mun_dict_sorted = map wrap mun /\
    provider_dict_sorted = map wrap provider /\
    out' = out ++ [header1] ++ map line mun ++ [header2] ++ map line provider.
Proof.
  rewrite processStats_stages.
  destruct (column service_areas provider_coll_field) as [coll|]; [|discriminate].
  destruct (uncollected provider_stats coll) as [unc|]; [|discriminate].
  destruct (sorted_by_value_reverse (py_dict (combine mun_names mun_stats)))
    as [mr|]; [|discriminate].
  destruct (sorted_by_value_reverse (py_dict (combine provider_names unc)))
    as [pr|]; [|discriminate].
  destruct (for_each print_item mr _) as [o [u|]] eqn:E1; [|discriminate].
  destruct (for_each print_item pr _) as [o' [u'|]] eqn:E2; [|discriminate].
  intros [= <- <- <-].
  destruct (finite_values_wrap mr (for_each_print_returns _ _ _ _ E1))
    as (mun & -> & Hmun).
  destruct (finite_values_wrap pr (for_each_print_returns _ _ _ _ E2))
    as (provider & -> & Hprov).
  rewrite for_each_print in E1 by trivial. injection E1 as <- _.
  rewrite for_each_print in E2 by trivial. injection E2 as <- _.
  exists mun, provider. split; [reflexivity|]. split; [reflexivity|].
  now rewrite <- !app_assoc.
Qed.

Lemma processStats_prints_rankings_witness :
  exists mun provider,
    [("B", PyFloat 2500); ("A", PyFloat 30)]%string = map wrap mun /\
    [("Q", PyFloat 40); ("P", PyFloat (-20))]%string = map wrap provider /\
    [header1; "B : 2,500 tonnes"; "A : 30 tonnes";
     header2; "Q : 40 tonnes"; "P : -20 tonnes"]%string =
      [] ++ [header1] ++ map line mun ++ [header2] ++ map line provider.
Proof.
  exact (processStats_prints_rankings
           lagos_areas ["A"; "B"]%string [PyFloat 30; PyFloat 2500]
           ["P"; "Q"]%string [PyFloat 100; PyFloat 50] "total_coll" [] _ _ _ eq_refl).
Defined.

(** ** The order of the names in a dictionary *)

Lemma filter_twice {A} (f g : A -> bool) l :
  filter f (filter g l) = filter (fun x => g x && f x) l.
Proof.
  induction l as [|a l IH]; simpl; [reflexivity|].
  destruct (g a); simpl; [|exact IH]. destruct (f a); now rewrite IH.
Qed.

Lemma existsb_eqb_In k keys : existsb (String.eqb k) keys = true <-> In k keys.
Proof.
  rewrite existsb_exists. split.
  - intros (x & Hin & Heq). apply String.eqb_eq in Heq. now subst.
  - intros Hin. exists k. split; [exact Hin|apply String.eqb_refl].
Qed.

(** New keys are added to a dictionary in the order in which they first
    occur. *)
Lemma update_key_order {V} (pairs : list (string * V)) (d : dict V) :
  map fst (update d pairs) =
  map fst d ++ filter (fun k => negb (existsb (String.eqb k) (map fst d)))
                      (first_occurrences (map fst pairs)).
Proof.
  revert d. induction pairs as [|[k v] pairs IH]; intros d.
  - simpl. now rewrite app_nil_r.
  - change (update d ((k, v) :: pairs)) with (update (setitem d k v) pairs).
    rewrite IH. cbn [map fst first_occurrences filter].
    destruct (existsb (String.eqb k) (map fst d)) eqn:Ek; cbn [negb].
    + apply existsb_eqb_In in Ek. rewrite setitem_keys by trivial. f_equal.
      rewrite filter_twice. apply filter_ext_in. intros x _.
      destruct (String.eqb_spec k x) as [<-|Hne]; simpl; [|reflexivity].
      apply existsb_eqb_In in Ek. now rewrite Ek.
    + assert (~ In k (map fst d)) as Hout.
      { intros Hin. apply existsb_eqb_In in Hin. congruence. }
      rewrite setitem_fresh, map_app, <- app_assoc by trivial. f_equal.
      cbn [map fst app]. f_equal.
      rewrite filter_twice. apply filter_ext. intros x.
      rewrite existsb_app. cbn [existsb]. rewrite orb_false_r, negb_orb.
      rewrite (String.eqb_sym x k). apply andb_comm.
Qed.

Lemma py_dict_key_order {V} (pairs : list (string * V)) :
  map fst (py_dict pairs) = first_occurrences (map fst pairs).
Proof.
  unfold py_dict. fold (update [] pairs). rewrite update_key_order. simpl.
  apply filter_true.
Qed.

Lemma filter_keys (test : option float -> bool) (d : dict float) :
  NoDup (map fst d) ->
  map fst (filter (fun p => test (Some (snd p))) d) =
  filter (fun n => test (get d n)) (map fst d).
Proof.
  induction d as [|[k x] d IH]; intros Hnd; [reflexivity|].
  inversion Hnd as [|? ? Hk Hnd']; subst.
  cbn [map fst filter snd get]. rewrite String.eqb_refl.
  assert (filter (fun n => test (if String.eqb k n then Some x else get d n))
                 (map fst d) =
          filter (fun n => test (get d n)) (map fst d)) as ->.
  { apply filter_ext_in. intros n Hn.
    destruct (String.eqb_spec k n) as [<-|]; [contradiction|reflexivity]. }
  rewrite <- IH by trivial. now destruct (test (Some x)).
Qed.

(** ** Ranking a ranking *)

Lemma insort_num_last x run :
  (forall y, In y run -> (snd x <? snd y) = false) ->
  insort_num x run = run ++ [x].
Proof.
  induction run as [|y run IH]; intros H; simpl; [reflexivity|].
  rewrite (H y) by now left. rewrite IH; [reflexivity|].
  intros z Hz. apply H. now right.
Qed.

Lemma ascending_before run x todo :
  ascending (run ++ x :: todo) ->
  forall y, In y run -> (snd x <? snd y) = false.
Proof.
  unfold ascending. induction run as [|a run IH]; intros Hs y Hy; [destruct Hy|].
  inversion Hs as [|? ? Hs' Ha]; subst. destruct Hy as [<-|Hy].
  - rewrite Forall_forall in Ha. apply Ha. apply in_app_iff. right. now left.
  - now apply IH.
Qed.

Lemma sort_forward_num_sorted todo run :
  ascending (run ++ todo) -> sort_forward_num todo run = run ++ todo.
Proof.
  revert run. induction todo as [|x todo IH]; intros run Hs; simpl.
  - now rewrite app_nil_r.
  - rewrite (insort_num_last x run) by now apply (ascending_before run x todo).
    rewrite IH; rewrite <- app_assoc; trivial.
Qed.

(** A list that is already in descending order is left as it is. *)
Lemma ranked_fixed l : descending l -> ranked l = l.
Proof.
  intros Hd. unfold ranked.
  rewrite (sort_forward_num_sorted (rev l) []).
  - apply rev_involutive.
  - simpl. apply (StronglySorted_rev _ l Hd).
Qed.

Lemma map_wrap_inj l l' : map wrap l = map wrap l' -> l = l'.
Proof.
  revert l'. induction l as [|[n x] l IH]; intros [|[n' x'] l']; try discriminate.
  - reflexivity.
  - cbn [map]. unfold wrap at 1 3. cbn [fst snd]. intros [= -> -> H].
    f_equal. now apply IH.
Qed.

(** Among the names ranked with one value, a name that was given several
    times stands where it first occurred, though its value is the last one
    given: the names ranked with the value [v] are the names whose last
    value is [v], in the order of their first occurrences. *)
Theorem ties_in_order_of_first_occurrence service_areas provider_coll_field
        provider_coll mun_names mun_xs provider_names provider_xs out :
  column service_areas provider_coll_field = Return provider_coll ->
  all_finite (combine mun_names mun_xs) ->
  all_finite (combine provider_names (deficits provider_xs provider_coll)) ->
  exists mun_dict_sorted provider_dict_sorted,
    snd (processStats service_areas mun_names (map PyFloat mun_xs)
                      provider_names (map PyFloat provider_xs)
                      provider_coll_field out) =
      Return (map wrap mun_dict_sorted, provider_dict_sorted) /\
    forall v,
      map fst (filter (valued v) mun_dict_sorted) =
      filter (fun n => match get (rev (combine mun_names mun_xs)) n with
                       | Some x => x =? v
                       | None => false
                       end)
             (first_occurrences (map fst (combine mun_names mun_xs))).
Proof.
  intros Hc Hm Hp. eexists. eexists.
  rewrite processStats_numeric with (coll := provider_coll); trivial.
  split; [reflexivity|]. intros v. unfold mun_ranking.
  rewrite ranked_stable.
  rewrite <- py_dict_key_order.
  rewrite (filter_keys (fun o => match o with Some x => x =? v | None => false end)
                       (py_dict (combine mun_names mun_xs)) (py_dict_NoDup _)
           : map fst (filter (valued v) _) = _).
  apply filter_ext. intros n. now rewrite py_dict_get.
Qed.

Lemma ties_in_order_of_first_occurrence_witness :
  exists mun_dict_sorted provider_dict_sorted,
    snd (processStats lagos_areas
                      ["A"; "B"; "A"]%string (map PyFloat [1; 5; 5])
                      ["P"; "Q"]%string (map PyFloat [100; 50])
                      "total_coll" []) =
      Return (map wrap mun_dict_sorted, provider_dict_sorted) /\
    forall v,
      map fst (filter (valued v) mun_dict_sorted) =
      filter (fun n => match get (rev (combine ["A"; "B"; "A"]%string [1; 5; 5])) n with
                       | Some x => x =? v
                       | None => false
                       end)
             (first_occurrences (map fst (combine ["A"; "B"; "A"]%string [1; 5; 5]))).
Proof.
  refine (ties_in_order_of_first_occurrence
            lagos_areas "total_coll" [120; 10]
            ["A"; "B"; "A"]%string [1; 5; 5]
            ["P"; "Q"]%string [100; 50] [] eq_refl _ _).
  - repeat constructor.
  - repeat constructor.
Defined.

(** The municipal ranking is a fixed point: given back to [processStats]
    as names and statistics, it is returned as it is, and the same lines are
    printed. *)
Theorem processStats_ranking_fixed service_areas mun_names mun_stats
        provider_names provider_stats provider_coll_field out out'
        mun_dict_sorted provider_dict_sorted :
  processStats service_areas mun_names mun_stats provider_names provider_stats
               provider_coll_field out =
    (out', Return (mun_dict_sorted, provider_dict_sorted)) ->
  processStats service_areas (map fst mun_dict_sorted) (map snd mun_dict_sorted)
               provider_names provider_stats provider_coll_field out =
    (out', Return (mun_dict_sorted, provider_dict_sorted)).
Proof.
  rewrite !processStats_stages.
  destruct (column service_areas provider_coll_field) as [coll|]; [|discriminate].
  destruct (uncollected provider_stats coll) as [unc|]; [|discriminate].
  destruct (sorted_by_value_reverse (py_dict (combine mun_names mun_stats)))
    as [mr|] eqn:Em; [|discriminate].
  destruct (sorted_by_value_reverse (py_dict (combine provider_names unc)))
    as [pr|]; [|discriminate].
  destruct (for_each print_item mr _) as [o [u|]] eqn:E1; [|discriminate].
  destruct (for_each print_item pr _) as [o' [u'|]] eqn:E2; [|discriminate].
  intros [= <- <- <-].
  assert (sorted_by_value_reverse
            (py_dict (combine (map fst mr) (map snd mr))) = Return mr) as ->.
  { pose proof (sorted_perm _ _ Em) as Hperm.
    rewrite combine_fst_snd, py_dict_distinct.
    2: { eapply Permutation_NoDup; [apply Permutation_map, Hperm|].
         apply py_dict_NoDup. }
    pose proof (for_each_print_returns _ _ _ _ E1) as Hfin.
    assert (Forall (fun i => finite_value (snd i))
                   (py_dict (combine mun_names mun_stats))) as Hfin'
        by (eapply Permutation_Forall; [apply Permutation_sym, Hperm|exact Hfin]).
    apply finite_values_wrap in Hfin'. destruct Hfin' as (d & Hd & _).
    rewrite Hd, sorted_wrap in Em. injection Em as <-.
    rewrite sorted_wrap. f_equal. f_equal.
    apply ranked_fixed, ranked_descending. }
  rewrite E1, E2. reflexivity.
Qed.

Lemma processStats_ranking_fixed_witness :
  processStats lagos_areas
               (map fst [("B", PyFloat 2500); ("A", PyFloat 30)]%string)
               (map snd [("B", PyFloat 2500); ("A", PyFloat 30)]%string)
               ["P"; "Q"]%string [PyFloat 100; PyFloat 50] "total_coll" [] =
    ([header1; "B : 2,500 tonnes"; "A : 30 tonnes";
      header2; "Q : 40 tonnes"; "P : -20 tonnes"]%string,
     Return ([("B", PyFloat 2500); ("A", PyFloat 30)]%string,
             [("Q", PyFloat 40); ("P", PyFloat (-20))]%string)).
Proof.
  exact (processStats_ranking_fixed
           lagos_areas ["A"; "B"; "A"]%string [PyFloat 7; PyFloat 2500; PyFloat 30]
           ["P"; "Q"]%string [PyFloat 100; PyFloat 50] "total_coll" [] _ _ _ eq_refl).
Defined.

(** ** What [zonalStats] reads and raises *)

Section ZonalStatsOutcomes.
Context {Vector Affine : Type}.
Variable zonal_stats :
  Vector -> ndarray -> Affine -> pyval -> string -> outcome (list feature_dict).

Lemma append_names_stats_raises temp name_field stat_select feature_list stat_list e :
  append_names_stats temp name_field stat_select feature_list stat_list = Raise e ->
  e = KeyError /\ Exists (lacks name_field stat_select) temp.
Proof.
  revert feature_list stat_list.
  induction temp as [|f temp IH]; intros feature_list stat_list; [discriminate|].
  cbn [append_names_stats]. unfold getitem.
  destruct (get (properties f) name_field) as [n|] eqn:En; cbn [obind].
  - destruct (get (properties f) stat_select) as [s|] eqn:Es; cbn [obind].
    + intros H. destruct (IH _ _ H) as [-> Hex]. split; [reflexivity|].
      now apply Exists_cons_tl.
    + intros [= <-]. split; [reflexivity|]. apply Exists_cons_hd. now right.
  - intros [= <-]. split; [reflexivity|]. apply Exists_cons_hd. now left.
Qed.

Lemma append_names_stats_lacking temp name_field stat_select feature_list stat_list :
  Exists (lacks name_field stat_select) temp ->
  append_names_stats temp name_field stat_select feature_list stat_list =
    Raise KeyError.
Proof.
  intros Hex. revert feature_list stat_list.
  induction Hex as [f temp Hf|f temp Hex IH]; intros feature_list stat_list;
    cbn [append_names_stats]; unfold getitem.
  - destruct Hf as [-> | Hs]; [reflexivity|].
    destruct (get (properties f) name_field); [|reflexivity].
    rewrite Hs. reflexivity.
  - destruct (get (properties f) name_field); [|reflexivity].
    destruct (get (properties f) stat_select); [|reflexivity].
    cbn [obind]. apply IH.
Qed.

(** [getNamesStats] raises what [zonal_stats] raises, and otherwise
    [KeyError], exactly when some feature that [zonal_stats] yields has no
    property of the name asked for or no property named after the statistic:
    a missing property is not skipped and no default stands in for it. *)
Theorem getNamesStats_raises affine nodata vector array name_field
        feature_list stat_list stat_select e :
  getNamesStats zonal_stats affine nodata vector array name_field
                feature_list stat_list stat_select = Raise e <->
  zonal_stats vector array affine nodata stat_select = Raise e \/
  (e = KeyError /\
   exists temp,
     zonal_stats vector array affine nodata stat_select = Return temp /\
     Exists (lacks name_field stat_select) temp).
Proof.
  unfold getNamesStats.
  destruct (zonal_stats vector array affine nodata stat_select) as [temp|e0];
    cbn [obind].
  - split.
    + intros H. right. apply append_names_stats_raises in H.
      destruct H as [-> Hex]. split; [reflexivity|]. eauto.
    + intros [H|(-> & temp' & [= <-] & Hex)]; [discriminate|].
      now apply append_names_stats_lacking.
  - split.
    + intros [= <-]. now left.
    + intros [[= <-]|(_ & temp & H & _)]; [reflexivity|discriminate].
Qed.

(** The four lists of [zonalStats] follow the features that [zonal_stats]
    yields, one for one and in their order: the [i]-th municipal name and
    the [i]-th municipal statistic are both read from the [i]-th feature
    yielded for [municipal_filter], so that names and statistics stay paired
    and the two lists have one length; likewise for the service areas.  (In
    which order [zonal_stats] yields the features of a table is decided by
    rasterstats, not here.)  The statistic read is ["sum"] for every value
    of the argument [stat_select], which is not passed on. *)
Theorem zonalStats_lists_aligned municipal_filter service_areas array affine nodata
        stat_select mun_name_field provider_name_field temp_m temp_p :
  zonal_stats municipal_filter array affine nodata "sum" = Return temp_m ->
  zonal_stats service_areas array affine nodata "sum" = Return temp_p ->
  Forall (fun f => ~ lacks mun_name_field "sum" f) temp_m ->
  Forall (fun f => ~ lacks provider_name_field "sum" f) temp_p ->
  exists mun_names mun_stats provider_names provider_stats,
    zonalStats zonal_stats municipal_filter service_areas array affine nodata
               stat_select mun_name_field provider_name_field =
      Return (mun_names, mun_stats, provider_names, provider_stats) /\
    Forall2 (fun f n => get (properties f) mun_name_field = Some n)
            temp_m mun_names /\
    Forall2 (fun f s => get (properties f) "sum" = Some s) temp_m mun_stats /\
    Forall2 (fun f n => get (properties f) provider_name_field = Some n)
            temp_p provider_names /\
    Forall2 (fun f s => get (properties f) "sum" = Some s) temp_p provider_stats /\
    List.length mun_names = List.length mun_stats /\
    List.length provider_names = List.length provider_stats.
Proof.
  intros Hm Hp Hfm Hfp.
  assert (forall name_field temp,
             Forall (fun f => ~ lacks name_field "sum" f) temp ->
             Forall (fun f => get (properties f) name_field <> None /\
                              get (properties f) "sum" <> None) temp) as Hboth.
  { intros name_field temp H. eapply Forall_impl; [|exact H].
    unfold lacks. intros f Hf. tauto. }
  destruct (append_names_stats_ok temp_m mun_name_field "sum" [] []
                                  (Hboth _ _ Hfm))
    as (mun_names & mun_stats & Hrun_m & Hnames_m & Hstats_m).
  destruct (append_names_stats_ok temp_p provider_name_field "sum" [] []
                                  (Hboth _ _ Hfp))
    as (provider_names & provider_stats & Hrun_p & Hnames_p & Hstats_p).
  exists mun_names, mun_stats, provider_names, provider_stats.
  unfold zonalStats, getNamesStats. rewrite Hm. cbn [obind]. rewrite Hrun_m.
  cbn [obind]. rewrite Hp. cbn [obind]. rewrite Hrun_p. cbn [obind fst snd app].
  repeat split; trivial.
  - rewrite <- (Forall2_length Hnames_m). apply (Forall2_length Hstats_m).
  - rewrite <- (Forall2_length Hnames_p). apply (Forall2_length Hstats_p).
Qed.
End ZonalStatsOutcomes.

Lemma zonalStats_lists_aligned_witness :
  exists mun_names mun_stats provider_names provider_stats,
    zonalStats two_zones tt tt [[1]] tt PyNone "mean" "ADM2_EN" "ADM2_EN" =
      Return (mun_names, mun_stats, provider_names, provider_stats) /\
    Forall2 (fun f n => get (properties f) "ADM2_EN" = Some n)
            [ {| properties := [("ADM2_EN", Text "Ikeja"); ("sum", Stat (PyFloat 12))] |};
              {| properties := [("ADM2_EN", Text "Epe"); ("sum", Stat PyNone)] |} ]%string
            mun_names /\
    Forall2 (fun f s => get (properties f) "sum" = Some s)
            [ {| properties := [("ADM2_EN", Text "Ikeja"); ("sum", Stat (PyFloat 12))] |};
              {| properties := [("ADM2_EN", Text "Epe"); ("sum", Stat PyNone)] |} ]%string
            mun_stats /\
    Forall2 (fun f n => get (properties f) "ADM2_EN" = Some n)
            [ {| properties := [("ADM2_EN", Text "Ikeja"); ("sum", Stat (PyFloat 12))] |};
              {| properties := [("ADM2_EN", Text "Epe"); ("sum", Stat PyNone)] |} ]%string
            provider_names /\
    Forall2 (fun f s => get (properties f) "sum" = Some s)
            [ {| properties := [("ADM2_EN", Text "Ikeja"); ("sum", Stat (PyFloat 12))] |};
              {| properties := [("ADM2_EN", Text "Epe"); ("sum", Stat PyNone)] |} ]%string
            provider_stats /\
    List.length mun_names = List.length mun_stats /\
    List.length provider_names = List.length provider_stats.
Proof.
  refine (zonalStats_lists_aligned two_zones tt tt [[1]] tt PyNone
                                   "mean" "ADM2_EN" "ADM2_EN" _ _
                                   eq_refl eq_refl _ _).
  - repeat constructor; unfold lacks; simpl; intros [H|H]; discriminate.
  - repeat constructor; unfold lacks; simpl; intros [H|H]; discriminate.
Defined.

(** ** Every ranking returned is in order *)

(** Whatever the names and statistics given, repeated names and undefined
    statistics included: whenever [processStats] returns, both rankings are
    lists of numbers in descending order, and no name occurs twice in
    either. *)
Theorem processStats_returns_descending service_areas mun_names mun_stats
        provider_names provider_stats provider_coll_field out out'
        mun_dict_sorted provider_dict_sorted :
  processStats service_areas mun_names mun_stats provider_names provider_stats
               provider_coll_field out =
    (out', Return (mun_dict_sorted, provider_dict_sorted)) ->
  exists mun provider,
    mun_dict_sorted = map wrap mun /\ descending mun /\ NoDup (map fst mun) /\
    provider_dict_sorted = map wrap provider /\ descending provider /\
    NoDup (map fst provider).
Proof.
  rewrite processStats_stages.
  destruct (column service_areas provider_coll_field) as [coll|]; [|discriminate].
  destruct (uncollected provider_stats coll) as [unc|]; [|discriminate].
  destruct (sorted_by_value_reverse (py_dict (combine mun_names mun_stats)))
    as [mr|] eqn:Em; [|discriminate].
  destruct (sorted_by_value_reverse (py_dict (combine provider_names unc)))
    as [pr|] eqn:Ep; [|discriminate].
  destruct (for_each print_item mr _) as [o [u|]] eqn:E1; [|discriminate].
  destruct (for_each print_item pr _) as [o' [u'|]] eqn:E2; [|discriminate].
  intros [= _ <- <-].
  assert (forall d r,
             sorted_by_value_reverse (py_dict d) = Return r ->
             Forall (fun i => finite_value (snd i)) r ->
             exists l, r = map wrap l /\ descending l /\ NoDup (map fst l)) as Hrank.
  { intros d r Hs Hfin. pose proof (sorted_perm _ _ Hs) as Hperm.
    assert (Forall (fun i => finite_value (snd i)) (py_dict d)) as Hfin'
        by (eapply Permutation_Forall; [apply Permutation_sym, Hperm|exact Hfin]).
    apply finite_values_wrap in Hfin'. destruct Hfin' as (l & Hl & _).
    rewrite Hl, sorted_wrap in Hs. injection Hs as <-.
    exists (ranked l). split; [reflexivity|]. split; [apply ranked_descending|].
    eapply Permutation_NoDup; [apply Permutation_map, ranked_perm|].
    replace (map fst l) with (map fst (map wrap l))
      by (rewrite map_map; reflexivity).
    rewrite <- Hl. apply py_dict_NoDup. }
  destruct (Hrank _ _ Em (for_each_print_returns _ _ _ _ E1)) as (mun & -> & Hm1 & Hm2).
  destruct (Hrank _ _ Ep (for_each_print_returns _ _ _ _ E2)) as (prov & -> & Hp1 & Hp2).
  exists mun, prov. auto 6.
Qed.

Lemma processStats_returns_descending_witness :
  exists mun provider,
    [("B", PyFloat 2500); ("A", PyFloat 30)]%string = map wrap mun /\
    descending mun /\ NoDup (map fst mun) /\
    [("Q", PyFloat 40); ("P", PyFloat (-20))]%string = map wrap provider /\
    descending provider /\ NoDup (map fst provider).
Proof.
  exact (processStats_returns_descending
           lagos_areas ["A"; "B"; "A"]%string [PyNone; PyFloat 2500; PyFloat 30]
           ["P"; "Q"]%string [PyFloat 100; PyFloat 50] "total_coll" [] _ _ _ eq_refl).
Defined.

(** A table without the column of reported totals: [processStats] raises
    [KeyError] at its first statement, whatever the statistics are, and
    prints nothing; and this is the only way it raises [KeyError]. *)
Theorem processStats_missing_column service_areas mun_names mun_stats
        provider_names provider_stats provider_coll_field out out' :
  processStats service_areas mun_names mun_stats provider_names provider_stats
               provider_coll_field out = (out', Raise KeyError) <->
  ~ In provider_coll_field (map fst service_areas) /\ out' = out.
Proof.
  rewrite processStats_stages. split.
  - destruct (column service_areas provider_coll_field) as [coll|e] eqn:Ec.
    2: { intros [= <- ->]. split; [|reflexivity]. now apply column_raises in Ec. }
    destruct (uncollected provider_stats coll) as [unc|e] eqn:Eu.
    2: { intros [= _ ->]. now apply uncollected_raises in Eu. }
    destruct (sorted_by_value_reverse (py_dict (combine mun_names mun_stats)))
      as [mr|e] eqn:Em.
    2: { intros [= _ ->]. now apply sorted_raises in Em. }
    destruct (sorted_by_value_reverse (py_dict (combine provider_names unc)))
      as [pr|e] eqn:Ep.
    2: { intros [= _ ->]. now apply sorted_raises in Ep. }
    destruct (for_each print_item mr _) as [o [u|e]] eqn:E1.
    2: { intros [= _ ->]. apply for_each_print_raises in E1.
         destruct E1 as (i & _ & Hi). now apply py_int_raises in Hi. }
    destruct (for_each print_item pr _) as [o' [u'|e]] eqn:E2; [discriminate|].
    intros [= _ ->]. apply for_each_print_raises in E2.
    destruct E2 as (i & _ & Hi). now apply py_int_raises in Hi.
  - intros [Hout ->]. now rewrite column_missing.
Qed.

(** ** Cells without population *)

Lemma mass_zero p r :
  (p =? 0) = true -> is_finite r = true -> (mass p r =? 0) = true.
Proof.
  intros Hp Hr. destruct (eqb_zero_spec p Hp) as (s & Es).
  unfold mass. rewrite ltb_zero_neg, Es. cbn [is_neg].
  rewrite eqb_spec, div_spec, !mul_spec, Es.
  unfold is_finite in Hr.
  destruct (Prim2SF r) as [s'|s'| |s' m e]; try discriminate; reflexivity.
Qed.

(** With a finite rate, a cell where nobody lives holds a mass of zero. *)
Theorem computeArray_empty_cells {Window Affine}
        (dataset : DatasetReader Window Affine)
        minx miny maxx maxy sw_ppd window pop_array affine :
  ds_window dataset minx miny maxx maxy = Return window ->
  ds_read dataset 1 window = Return pop_array ->
  ds_window_transform dataset window = Return affine ->
  is_finite sw_ppd = true ->
  exists array,
    computeArray dataset (minx, miny, maxx, maxy) sw_ppd =
      Return (array, affine, ds_nodata dataset) /\
    forall i j p, cell pop_array i j = Some p -> (p =? 0) = true ->
      exists m, cell array i j = Some m /\ (m =? 0) = true.
Proof.
  intros Hw Hr Ht Hf. eexists.
  split; [exact (computeArray_array _ _ _ _ _ _ _ _ _ Hw Hr Ht)|].
  intros i j p Hp Hz. rewrite cell_map, Hp. simpl. eexists.
  split; [reflexivity|]. now apply mass_zero.
Qed.

Lemma computeArray_empty_cells_witness :
  exists array,
    computeArray three_cells (0, 0, 1, 1) 0.5 =
      Return (array, tt, PyFloat (-99999)) /\
    forall i j p, cell [[120; -99999; 0]] i j = Some p -> (p =? 0) = true ->
      exists m, cell array i j = Some m /\ (m =? 0) = true.
Proof.
  exact (computeArray_empty_cells three_cells 0 0 1 1 0.5 tt [[120; -99999; 0]] tt
                                  eq_refl eq_refl eq_refl eq_refl).
Defined.

(** ** Values between -1 and 1 *)

Local Open Scope Z_scope.

Lemma shiftl_small m e : 0 <= m -> e < 0 -> m < 2 ^ (- e) -> Z.shiftl m e = 0.
Proof.
  intros Hm He Hlt. rewrite Z.shiftl_div_pow2 by lia. apply Z.div_small. lia.
Qed.

Lemma below_one_magnitude s m e :
  valid_binary (S754_finite s m e) = true ->
  e < -52 \/ (e = -52 /\ Zpos m < 4503599627370496) ->
  Z.shiftl (Zpos m) e = 0.
Proof.
  intros Hv H. apply shiftl_small; [lia|lia|].
  destruct H as [He|[-> Hm]]; [|exact Hm].
  apply valid_finite in Hv. destruct Hv as [Hv _].
  pose proof (digits2_bounds m) as [_ Hhi].
  assert (Zpos (digits2_pos m) <= 53) as Hd by lia.
  apply Z.lt_le_trans with (1 := Hhi). apply Z.pow_le_mono_r; lia.
Qed.

Local Close Scope Z_scope.

(** [int] of a number between -1 and 1 is zero. *)
Lemma trunc_below_one x :
  (-1 <? x) = true -> (x <? 1) = true -> is_finite x = true /\ trunc x = 0%Z.
Proof.
  intros Hlo Hhi. rewrite ltb_spec in Hlo, Hhi.
  apply SFltb_lex in Hlo, Hhi.
  destruct Hlo as (a & b & Ha & Hb & Hab), Hhi as (b' & c & Hb' & Hc & Hbc).
  rewrite Hb in Hb'. injection Hb' as <-.
  change (Prim2SF (-1)) with (S754_finite true 4503599627370496 (-52)) in Ha.
  change (Prim2SF 1) with (S754_finite false 4503599627370496 (-52)) in Hc.
  simpl in Ha, Hc. injection Ha as <-. injection Hc as <-.
  pose proof (Prim2SF_valid x) as Hv.
  unfold is_finite, trunc, py_int.
  destruct (Prim2SF x) as [s|s| |s m e]; try discriminate.
  - split; reflexivity.
  - destruct s; simpl in Hb; injection Hb as <-; simpl in Hab, Hbc; lia.
  - split; [reflexivity|].
    rewrite (below_one_magnitude s m e Hv); [now destruct s|].
    destruct s; simpl in Hb; injection Hb as <-; simpl in Hab, Hbc; lia.
Qed.

(** A value strictly between -1 and 1 is printed as [0 tonnes]: a surplus
    or a deficit of less than a tonne shows neither its size nor its
    sign. *)
Theorem print_item_below_one (n : string) (x : float) out :
  (-1 <? x) = true -> (x <? 1) = true ->
  print_item (n, PyFloat x) out = (out ++ [(n ++ " : 0 tonnes")%string], Return tt).
Proof.
  intros Hlo Hhi. destruct (trunc_below_one x Hlo Hhi) as [Hf Ht].
  change (n, PyFloat x) with (wrap (n, x)).
  rewrite print_item_finite by exact Hf.
  unfold line. cbn [fst snd]. rewrite Ht. reflexivity.
Qed.

Lemma print_item_below_one_witness :
  print_item ("P"%string, PyFloat (-0.5)) [] = (["P : 0 tonnes"%string], Return tt).
Proof.
  exact (print_item_below_one "P" (-0.5) [] eq_refl eq_refl).
Defined.
